(** * Field operations of the migration framework

    A shallow embedding of [django/db/migrations/operations/fields.py]:
    the four operations [AddField], [RemoveField], [AlterField] and
    [RenameField], their action on a project state and on a schema
    editor, and their equality.

    Python objects that the operations share and mutate (field
    descriptors) live in a store; a reference is an index into it.
    Exceptions are results; the schema editor is a log of calls. *)

From Stdlib Require Import ZArith Ascii.
From stdpp Require Import base option list gmap strings.

(** ** Strings *)

(** [str.lower()], on the ASCII letters. *)
Definition lower_ascii (c : ascii) : ascii :=
  let n := nat_of_ascii c in
  if (65 <=? n)%nat && (n <=? 90)%nat then ascii_of_nat (n + 32) else c.

Fixpoint lower (s : string) : string :=
  match s with
  | EmptyString => EmptyString
  | String c r => String (lower_ascii c) (lower r)
  end.

(** ** Values and field descriptors *)

(** Plain values that occur as constructor arguments of a field. *)
Inductive value :=
| VNone
| VInt (z : Z)
| VStr (s : string).

#[global] Instance value_eq_dec : EqDecision value.
Proof. solve_decision. Defined.

(** The [default] attribute: the sentinel class [NOT_PROVIDED] of
    [django.db.models.fields], or a value. *)
Inductive Default :=
| NOT_PROVIDED
| Value (v : value).

#[global] Instance Default_eq_dec : EqDecision Default.
Proof. solve_decision. Defined.

(** References into the store of field objects. *)
Abbreviation addr := nat (only parsing).

(** A rendered model class, as [state.render().get_model(...)] returns
    it: its name and the field objects its [_meta] knows. *)
Record Model := {
  object_name : string;
  meta_fields : list (string * addr)
}.

#[global] Instance Model_eq_dec : EqDecision Model.
Proof. solve_decision. Defined.

(** [rel.to] is either a string naming a model not resolved yet, or the
    model class. *)
Inductive RelTo :=
| Unresolved (ref : string)
| Resolved (m : Model).

#[global] Instance RelTo_eq_dec : EqDecision RelTo.
Proof. solve_decision. Defined.

Record Rel := { to : RelTo }.

#[global] Instance Rel_eq_dec : EqDecision Rel.
Proof. solve_decision. Defined.

(** A field object. [attname] is the name the field is bound under
    (the first component of [deconstruct()]), [path] its class,
    [options] the keyword arguments other than [default], [rel] the
    relation object of a related field ([None] otherwise). *)
Record Field := {
  attname : option string;
  path : string;
  default : Default;
  rel : option Rel;
  options : gmap string value
}.

Definition with_default (f : Field) (d : Default) : Field :=
  {| attname := attname f; path := path f; default := d;
     rel := rel f; options := options f |}.

Definition with_rel_to (f : Field) (t : RelTo) : Field :=
  {| attname := attname f; path := path f; default := default f;
     rel := Some {| to := t |}; options := options f |}.

(** Python's truth test on [rel.to]: a string is true unless empty, a
    class is true. *)
Definition truth (t : RelTo) : bool :=
  match t with
  | Unresolved s => negb (String.eqb s "")
  | Resolved _ => true
  end.

(** [isinstance(x, six.string_types)]. *)
Definition is_string (t : RelTo) : bool :=
  match t with
  | Unresolved _ => true
  | Resolved _ => false
  end.

(** ** Project state *)

Record ModelState := { fields : list (string * addr) }.

Record ProjectState := { models : gmap (string * string) ModelState }.

(** [state.models[key].fields = fs] *)
Definition set_fields (state : ProjectState) (key : string * string)
    (fs : list (string * addr)) : ProjectState :=
  {| models := <[key := {| fields := fs |}]> (models state) |}.

(** ** The schema editor and the world *)

Inductive Call :=
| add_field (model : Model) (field : addr)
| remove_field (model : Model) (field : addr)
| alter_field (model : Model) (old_field new_field : addr).

(** A call of the schema editor, with the field objects as they were
    when it was made. *)
Record Event := { call : Call; seen : list Field }.

Record World := {
  heap : list Field;
  calls : list Event
}.

Inductive exn :=
| KeyError             (* state.models[...] *)
| LookupError          (* get_model *)
| FieldDoesNotExist    (* get_new_field *)
| AttributeError       (* None.to *)
| DatabaseError        (* raised by the schema editor *)
| Dangling.            (* a reference the store does not hold; no Python
                          program reaches it *)

Inductive result (A : Type) :=
| Ok (a : A)
| Raise (e : exn).

Arguments Ok {A} a.
Arguments Raise {A} e.

(** Computations: they read and write the world and may raise. *)
Definition M (A : Type) : Type := World -> result A * World.

Definition ret {A} (a : A) : M A := fun w => (Ok a, w).

Definition raise {A} (e : exn) : M A := fun w => (Raise e, w).

Definition bind {A B} (m : M A) (k : A -> M B) : M B :=
  fun w =>
    match m w with
    | (Ok a, w') => k a w'
    | (Raise e, w') => (Raise e, w')
    end.

Notation "'let*' x := m 'in' k" := (bind m (fun x => k))
  (at level 10, x name, m at level 100, k at level 200).
Notation "'run' m 'then' k" := (bind m (fun _ => k))
  (at level 10, m at level 100, k at level 200).

Definition lift {A} (e : exn) (o : option A) : M A :=
  match o with
  | Some a => ret a
  | None => raise e
  end.

(** Reading and writing a field object. *)
Definition get (a : addr) : M Field :=
  fun w => lift Dangling (heap w !! a) w.

Definition put (a : addr) (f : Field) : M unit :=
  fun w => (Ok tt, {| heap := <[a := f]> (heap w); calls := calls w |}).

Definition alloc (f : Field) : M addr :=
  fun w => (Ok (length (heap w)),
            {| heap := heap w ++ [f]; calls := calls w |}).

(** [field.default = d] *)
Definition set_default (a : addr) (d : Default) : M unit :=
  let* f := get a in put a (with_default f d).

(** [field.rel.to = t] *)
Definition set_rel_to (a : addr) (t : RelTo) : M unit :=
  let* f := get a in
  match rel f with
  | Some _ => put a (with_rel_to f t)
  | None => raise AttributeError
  end.

(** [field.rel.to] *)
Definition get_rel_to (a : addr) : M RelTo :=
  let* f := get a in
  match rel f with
  | Some r => ret (to r)
  | None => raise AttributeError
  end.

(** ** Field methods the operations call

    They are defined in [django.db.models.fields]. *)

(** Modelled from the spec: [Field.deconstruct()], the canonical
    reconstruction form of a descriptor: the name it is bound under,
    its logical type, and its constructor arguments. The arguments are
    all keywords; [default] is among them iff it was provided. *)
Definition kwargs (f : Field) : gmap string value :=
  match default f with
  | NOT_PROVIDED => delete "default" (options f)
  | Value v => <["default" := v]> (options f)
  end.

Definition deconstruct (f : Field)
  : option string * (string * list value * gmap string value) :=
  (attname f, (path f, [], kwargs f)).

(** Modelled from the spec: [Field.clone()], a new descriptor of the
    same logical type and constructor arguments. *)
Definition clone (a : addr) : M addr :=
  let* f := get a in alloc f.

(** ** Collaborators

    The renderer, the field lookup of a rendered model and the router
    are outside this module; the operations only call them. *)
Class Collaborators := {
  Apps : Type;
  (* state.render() *)
  render : ProjectState -> Apps;
  (* apps.get_model(app_label, model_name) *)
  get_model : Apps -> string -> string -> option Model;
  (* model._meta.get_new_field(name, include_hidden) *)
  get_new_field : Model -> string -> bool -> option addr;
  (* router.allow_migrate(alias, model) *)
  allow_migrate : string -> Model -> bool
}.

(** [schema_editor]: its connection's alias, and whether a call raises
    in a given world. *)
Record SchemaEditor := {
  connection_alias : string;
  raises : World -> Call -> bool
}.

(** One call to the schema editor: logged, then it returns or raises. *)
Definition invoke (schema_editor : SchemaEditor) (c : Call) : M unit :=
  fun w =>
    let w' := {| heap := heap w;
                 calls := calls w ++ [{| call := c; seen := heap w |}] |} in
    if raises schema_editor w c then (Raise DatabaseError, w')
    else (Ok tt, w').

(** ** The operations *)

Module AddField.

Record t := {
  model_name : string;
  name : string;
  field : addr;
  preserve_default : bool
}.

Definition state_forwards (self : t) (app_label : string)
    (state : ProjectState) : M ProjectState :=
  (* If preserve default is off, don't use the default for future state *)
  let* field :=
    (if negb (preserve_default self) then
       let* field := clone (field self) in
       run set_default field NOT_PROVIDED then
       ret field
     else ret (field self)) in
  let key := (app_label, lower (model_name self)) in
  let* ms := lift KeyError (models state !! key) in
  ret (set_fields state key (fields ms ++ [(name self, field)])).

Definition database_forwards `{Collaborators} (self : t)
    (app_label : string) (schema_editor : SchemaEditor)
    (from_state to_state : ProjectState) : M unit :=
  let* from_model :=
    lift LookupError
      (get_model (render from_state) app_label (model_name self)) in
  let* to_model :=
    lift LookupError
      (get_model (render to_state) app_label (model_name self)) in
  if allow_migrate (connection_alias schema_editor) to_model then
    let* field :=
      lift FieldDoesNotExist (get_new_field to_model (name self) true) in
    run (if negb (preserve_default self) then
           let* f := get (AddField.field self) in
           set_default field (default f)
         else ret tt) then
    run invoke schema_editor (add_field from_model field) then
    if negb (preserve_default self) then set_default field NOT_PROVIDED
    else ret tt
  else ret tt.

Definition database_backwards `{Collaborators} (self : t)
    (app_label : string) (schema_editor : SchemaEditor)
    (from_state to_state : ProjectState) : M unit :=
  let* from_model :=
    lift LookupError
      (get_model (render from_state) app_label (model_name self)) in
  if allow_migrate (connection_alias schema_editor) from_model then
    let* f :=
      lift FieldDoesNotExist (get_new_field from_model (name self) true) in
    invoke schema_editor (remove_field from_model f)
  else ret tt.

Definition references_model (self : t) (name : string) : bool :=
  bool_decide (lower name = lower (model_name self)).

Definition references_field (self : t) (model_name name : string) : bool :=
  references_model self model_name
  && bool_decide (lower name = lower (AddField.name self)).

(** ["Add field %s to %s" % (self.name, self.model_name)] *)
Definition describe (self : t) : string :=
  "Add field " +:+ name self +:+ " to " +:+ model_name self.

End AddField.

Module RemoveField.

Record t := {
  model_name : string;
  name : string
}.

Definition state_forwards (self : t) (app_label : string)
    (state : ProjectState) : M ProjectState :=
  let key := (app_label, lower (model_name self)) in
  let* ms := lift KeyError (models state !! key) in
  let new_fields :=
    filter (fun '(name, instance) => name <> RemoveField.name self)
           (fields ms) in
  (* the second subscript of the same key cannot fail *)
  ret (set_fields state key new_fields).

Definition database_forwards `{Collaborators} (self : t)
    (app_label : string) (schema_editor : SchemaEditor)
    (from_state to_state : ProjectState) : M unit :=
  let* from_model :=
    lift LookupError
      (get_model (render from_state) app_label (model_name self)) in
  if allow_migrate (connection_alias schema_editor) from_model then
    let* f :=
      lift FieldDoesNotExist (get_new_field from_model (name self) true) in
    invoke schema_editor (remove_field from_model f)
  else ret tt.

Definition database_backwards `{Collaborators} (self : t)
    (app_label : string) (schema_editor : SchemaEditor)
    (from_state to_state : ProjectState) : M unit :=
  let* from_model :=
    lift LookupError
      (get_model (render from_state) app_label (model_name self)) in
  let* to_model :=
    lift LookupError
      (get_model (render to_state) app_label (model_name self)) in
  if allow_migrate (connection_alias schema_editor) to_model then
    let* f :=
      lift FieldDoesNotExist (get_new_field to_model (name self) true) in
    invoke schema_editor (add_field from_model f)
  else ret tt.

Definition references_model (self : t) (name : string) : bool :=
  bool_decide (lower name = lower (model_name self)).

Definition references_field (self : t) (model_name name : string) : bool :=
  references_model self model_name
  && bool_decide (lower name = lower (RemoveField.name self)).

(** ["Remove field %s from %s" % (self.name, self.model_name)] *)
Definition describe (self : t) : string :=
  "Remove field " +:+ name self +:+ " from " +:+ model_name self.

End RemoveField.

Module AlterField.

Record t := {
  model_name : string;
  name : string;
  field : addr
}.

Definition state_forwards (self : t) (app_label : string)
    (state : ProjectState) : M ProjectState :=
  let key := (app_label, lower (model_name self)) in
  let* ms := lift KeyError (models state !! key) in
  ret (set_fields state key
         (map (fun '(n, f) =>
                 (n, if bool_decide (n = name self) then field self else f))
              (fields ms))).

Definition database_forwards `{Collaborators} (self : t)
    (app_label : string) (schema_editor : SchemaEditor)
    (from_state to_state : ProjectState) : M unit :=
  let* from_model :=
    lift LookupError
      (get_model (render from_state) app_label (model_name self)) in
  let* to_model :=
    lift LookupError
      (get_model (render to_state) app_label (model_name self)) in
  if allow_migrate (connection_alias schema_editor) to_model then
    let* from_field :=
      lift FieldDoesNotExist (get_new_field from_model (name self) true) in
    let* to_field :=
      lift FieldDoesNotExist (get_new_field to_model (name self) true) in
    (* If the field is a relatedfield with an unresolved rel.to, just
       set it equal to the other field side. *)
    let* ff := get from_field in
    run (match rel ff with
         | Some r =>
             if truth (to r) then
               if is_string (to r) then
                 let* t := get_rel_to to_field in
                 set_rel_to from_field t
               else
                 let* t := get_rel_to to_field in
                 if is_string t then
                   let* t' := get_rel_to from_field in
                   set_rel_to to_field t'
                 else ret tt
             else ret tt
         | None => ret tt
         end) then
    invoke schema_editor (alter_field from_model from_field to_field)
  else ret tt.

Definition database_backwards `{Collaborators} (self : t)
    (app_label : string) (schema_editor : SchemaEditor)
    (from_state to_state : ProjectState) : M unit :=
  database_forwards self app_label schema_editor from_state to_state.

Definition references_model (self : t) (name : string) : bool :=
  bool_decide (lower name = lower (model_name self)).

Definition references_field (self : t) (model_name name : string) : bool :=
  references_model self model_name
  && bool_decide (lower name = lower (AlterField.name self)).

(** ["Alter field %s on %s" % (self.name, self.model_name)] *)
Definition describe (self : t) : string :=
  "Alter field " +:+ name self +:+ " on " +:+ model_name self.

End AlterField.

Module RenameField.

Record t := {
  model_name : string;
  old_name : string;
  new_name : string
}.

Definition state_forwards (self : t) (app_label : string)
    (state : ProjectState) : M ProjectState :=
  let key := (app_label, lower (model_name self)) in
  let* ms := lift KeyError (models state !! key) in
  ret (set_fields state key
         (map (fun '(n, f) =>
                 (if bool_decide (n = old_name self) then new_name self
                  else n, f))
              (fields ms))).

Definition database_forwards `{Collaborators} (self : t)
    (app_label : string) (schema_editor : SchemaEditor)
    (from_state to_state : ProjectState) : M unit :=
  let* from_model :=
    lift LookupError
      (get_model (render from_state) app_label (model_name self)) in
  let* to_model :=
    lift LookupError
      (get_model (render to_state) app_label (model_name self)) in
  if allow_migrate (connection_alias schema_editor) to_model then
    let* old_field :=
      lift FieldDoesNotExist
        (get_new_field from_model (old_name self) true) in
    let* new_field :=
      lift FieldDoesNotExist
        (get_new_field to_model (new_name self) true) in
    invoke schema_editor (alter_field from_model old_field new_field)
  else ret tt.

Definition database_backwards `{Collaborators} (self : t)
    (app_label : string) (schema_editor : SchemaEditor)
    (from_state to_state : ProjectState) : M unit :=
  let* from_model :=
    lift LookupError
      (get_model (render from_state) app_label (model_name self)) in
  let* to_model :=
    lift LookupError
      (get_model (render to_state) app_label (model_name self)) in
  if allow_migrate (connection_alias schema_editor) to_model then
    let* old_field :=
      lift FieldDoesNotExist
        (get_new_field from_model (new_name self) true) in
    let* new_field :=
      lift FieldDoesNotExist
        (get_new_field to_model (old_name self) true) in
    invoke schema_editor (alter_field from_model old_field new_field)
  else ret tt.

Definition references_model (self : t) (name : string) : bool :=
  bool_decide (lower name = lower (model_name self)).

Definition references_field (self : t) (model_name name : string) : bool :=
  references_model self model_name
  && (bool_decide (lower name = lower (old_name self))
      || bool_decide (lower name = lower (new_name self))).

(** ["Rename field %s on %s to %s"
     % (self.old_name, self.model_name, self.new_name)] *)
Definition describe (self : t) : string :=
  "Rename field " +:+ old_name self +:+ " on " +:+ model_name self
  +:+ " to " +:+ new_name self.

End RenameField.

(** ** Operations as values of one type, and their equality *)

Inductive operation :=
| Add (o : AddField.t)
| Remove (o : RemoveField.t)
| Alter (o : AlterField.t)
| Rename (o : RenameField.t).

(** An operation object: which object it is, and its attributes. *)
Record instance := {
  ident : nat;
  this : operation
}.

(** [AddField.__eq__]; the first conjunct, the test on [__class__], is
    the match on [other]. *)
Definition AddField__eq__ (self : AddField.t) (other : operation) : M bool :=
  match other with
  | Add other =>
      if bool_decide (AddField.name self = AddField.name other) then
        if bool_decide (lower (AddField.model_name self)
                        = lower (AddField.model_name other)) then
          let* f := get (AddField.field self) in
          let* g := get (AddField.field other) in
          ret (bool_decide (snd (deconstruct f) = snd (deconstruct g)))
        else ret false
      else ret false
  | _ => ret false
  end.

(** [AlterField.__eq__] *)
Definition AlterField__eq__ (self : AlterField.t) (other : operation)
  : M bool :=
  match other with
  | Alter other =>
      if bool_decide (AlterField.name self = AlterField.name other) then
        if bool_decide (lower (AlterField.model_name self)
                        = lower (AlterField.model_name other)) then
          let* f := get (AlterField.field self) in
          let* g := get (AlterField.field other) in
          ret (bool_decide (snd (deconstruct f) = snd (deconstruct g)))
        else ret false
      else ret false
  | _ => ret false
  end.

Module Operation.

(** Modelled from the spec: the base class [Operation] of [.base]
    defines no equality of its own, so a class that does not
    override it compares objects by identity. *)
Definition __eq__ (self other : instance) : M bool :=
  ret (bool_decide (ident self = ident other)).

End Operation.

(** [self == other], by the class of [self]. *)
Definition equals (self other : instance) : M bool :=
  match this self with
  | Add o => AddField__eq__ o (this other)
  | Alter o => AlterField__eq__ o (this other)
  | Remove _ | Rename _ => Operation.__eq__ self other
  end.

(** The uniform surface of the four classes. *)
Definition model_name (op : operation) : string :=
  match op with
  | Add o => AddField.model_name o
  | Remove o => RemoveField.model_name o
  | Alter o => AlterField.model_name o
  | Rename o => RenameField.model_name o
  end.

Definition state_forwards (op : operation) (app_label : string)
    (state : ProjectState) : M ProjectState :=
  match op with
  | Add o => AddField.state_forwards o app_label state
  | Remove o => RemoveField.state_forwards o app_label state
  | Alter o => AlterField.state_forwards o app_label state
  | Rename o => RenameField.state_forwards o app_label state
  end.

Definition database_forwards `{Collaborators} (op : operation)
    (app_label : string) (schema_editor : SchemaEditor)
    (from_state to_state : ProjectState) : M unit :=
  match op with
  | Add o =>
      AddField.database_forwards o app_label schema_editor from_state to_state
  | Remove o =>
      RemoveField.database_forwards o app_label schema_editor
        from_state to_state
  | Alter o =>
      AlterField.database_forwards o app_label schema_editor
        from_state to_state
  | Rename o =>
      RenameField.database_forwards o app_label schema_editor
        from_state to_state
  end.

Definition database_backwards `{Collaborators} (op : operation)
    (app_label : string) (schema_editor : SchemaEditor)
    (from_state to_state : ProjectState) : M unit :=
  match op with
  | Add o =>
      AddField.database_backwards o app_label schema_editor
        from_state to_state
  | Remove o =>
      RemoveField.database_backwards o app_label schema_editor
        from_state to_state
  | Alter o =>
      AlterField.database_backwards o app_label schema_editor
        from_state to_state
  | Rename o =>
      RenameField.database_backwards o app_label schema_editor
        from_state to_state
  end.

(** The names of a model's fields, in order. *)
Definition names (ms : ModelState) : list string := (fields ms).*1.

Definition describe (op : operation) : string :=
  match op with
  | Add o => AddField.describe o
  | Remove o => RemoveField.describe o
  | Alter o => AlterField.describe o
  | Rename o => RenameField.describe o
  end.

Definition references_model (op : operation) (name : string) : bool :=
  match op with
  | Add o => AddField.references_model o name
  | Remove o => RemoveField.references_model o name
  | Alter o => AlterField.references_model o name
  | Rename o => RenameField.references_model o name
  end.

Definition references_field (op : operation) (model_name name : string)
  : bool :=
  match op with
  | Add o => AddField.references_field o model_name name
  | Remove o => RemoveField.references_field o model_name name
  | Alter o => AlterField.references_field o model_name name
  | Rename o => RenameField.references_field o model_name name
  end.

(** [a.__class__ == b.__class__] *)
Definition same_class (a b : operation) : bool :=
  match a, b with
  | Add _, Add _ | Remove _, Remove _ | Alter _, Alter _
  | Rename _, Rename _ => true
  | _, _ => false
  end.

(** The key of the model an operation works on. *)
Definition target (op : operation) (app_label : string) : string * string :=
  (app_label, lower (model_name op)).

(** The three rewrites of a field list that [RemoveField], [AlterField]
    and [RenameField] perform, by name. *)
Definition keep (n : string) (l : list (string * addr))
  : list (string * addr) :=
  filter (fun '(name, instance) => name <> n) l.

Definition replace (n : string) (a : addr) (l : list (string * addr))
  : list (string * addr) :=
  map (fun '(m, f) => (m, if bool_decide (m = n) then a else f)) l.

Definition rename (old new : string) (l : list (string * addr))
  : list (string * addr) :=
  map (fun '(n, f) => (if bool_decide (n = old) then new else n, f)) l.

(** ** A concrete set of collaborators

    A renderer that hands out the state's own field objects, a model
    registry keyed like the state, and a router that gives one answer.
    It serves to run the operations on examples. *)

Fixpoint field_named (n : string) (l : list (string * addr)) : option addr :=
  match l with
  | [] => None
  | (m, a) :: r => if bool_decide (m = n) then Some a else field_named n r
  end.

Definition direct (allow : bool) : Collaborators := {|
  Apps := ProjectState;
  render := fun state => state;
  get_model := fun apps app_label model_name =>
    (fun ms => {| object_name := model_name; meta_fields := fields ms |})
      <$> models apps !! (app_label, lower model_name);
  get_new_field := fun model name _ => field_named name (meta_fields model);
  allow_migrate := fun _ _ => allow
|}.

(** A schema editor on connection ["default"] whose calls all return. *)
Definition editor : SchemaEditor :=
  {| connection_alias := "default"; raises := fun _ _ => false |}.

(** A schema editor whose calls all raise. *)
Definition broken_editor : SchemaEditor :=
  {| connection_alias := "default"; raises := fun _ _ => true |}.

(** The objects of the examples. *)
Definition IntegerField (d : Default) : Field :=
  {| attname := None; path := "django.db.models.IntegerField";
     default := d; rel := None; options := ∅ |}.

Definition AutoField : Field :=
  {| attname := Some "id"; path := "django.db.models.AutoField";
     default := NOT_PROVIDED; rel := None;
     options := ∅ |}.

Definition CharField : Field :=
  {| attname := None; path := "django.db.models.CharField";
     default := NOT_PROVIDED; rel := None;
     options := {[ "max_length" := VInt 20 ]} |}.

Definition ForeignKey (t : RelTo) : Field :=
  {| attname := None; path := "django.db.models.ForeignKey";
     default := NOT_PROVIDED; rel := Some {| to := t |};
     options := {[ "to" := VStr "Rider" ]} |}.

Definition state_of (app_label model : string) (fs : list (string * addr))
  : ProjectState :=
  {| models := {[ (app_label, model) := {| fields := fs |} ]} |}.

(** The field object an operation holds is in the store. *)
Definition live (w : World) (op : operation) : Prop :=
  match op with
  | Add o => is_Some (heap w !! AddField.field o)
  | Alter o => is_Some (heap w !! AlterField.field o)
  | Remove _ | Rename _ => True
  end.

(** The worlds and states of the examples: the model "Pony" of the
    application "app". *)
Definition is_add (op : operation) : bool :=
  match op with
  | Add _ => true
  | _ => false
  end.

Definition pony_world : World :=
  {| heap := [AutoField; IntegerField (Value (VInt 5))]; calls := [] |}.

Definition pony_state : ProjectState := state_of "app" "pony" [("id", 0)].

Definition rated_pony_state : ProjectState :=
  state_of "app" "pony" [("id", 0); ("rating", 1)].

Definition pony_add : AddField.t :=
  {| AddField.model_name := "Pony"; AddField.name := "rating";
     AddField.field := 1; AddField.preserve_default := false |}.

Definition pony_remove : RemoveField.t :=
  {| RemoveField.model_name := "Pony"; RemoveField.name := "rating" |}.

(** Three AddField operations on "Pony"/"pony", over descriptors that
    are equal (objects 1 and 2) or differ in the default (object 3). *)
Definition rating_world : World :=
  {| heap := [AutoField; IntegerField (Value (VInt 5));
              IntegerField (Value (VInt 5)); IntegerField (Value (VInt 7))];
     calls := [] |}.

Definition add_rating (model : string) (field : addr) : AddField.t :=
  {| AddField.model_name := model; AddField.name := "rating";
     AddField.field := field; AddField.preserve_default := true |}.

(** The state and the world that [pony_add] leaves, and the world
    after it has then run against [editor]. *)
Definition added_pony_state : ProjectState :=
  state_of "app" "pony" [("id", 0); ("rating", 2)].

Definition added_world : World :=
  {| heap := [AutoField; IntegerField (Value (VInt 5));
              IntegerField NOT_PROVIDED];
     calls := [] |}.

Definition restored_world : World :=
  {| heap := [AutoField; IntegerField (Value (VInt 5));
              IntegerField NOT_PROVIDED];
     calls :=
       [{| call := add_field {| object_name := "Pony";
                                meta_fields := [("id", 0)] |} 2;
           seen := [AutoField; IntegerField (Value (VInt 5));
                    IntegerField (Value (VInt 5))] |}] |}.

(** The rider of a pony: a foreign key whose target is the string
    "Rider" in one rendering and the model in the other. *)
Definition Rider : Model := {| object_name := "Rider"; meta_fields := [] |}.

Definition rider_world : World :=
  {| heap := [ForeignKey (Unresolved "Rider"); ForeignKey (Resolved Rider)];
     calls := [] |}.

Definition pony_alter : AlterField.t :=
  {| AlterField.model_name := "Pony"; AlterField.name := "rider";
     AlterField.field := 1 |}.

(** Relations between the world a computation starts in and the one it
    leaves, whether it returns or raises. *)
Definition steps {A : Type} (R : World -> World -> Prop) (m : M A) : Prop :=
  forall w : World, R w (snd (m w)).

Definition same_calls (w w' : World) : Prop := calls w' = calls w.

Definition same_heap (w w' : World) : Prop := heap w' = heap w.

Definition at_most_one_call (w w' : World) : Prop :=
  exists es : list Event, calls w' = calls w ++ es /\ length es <= 1.

(** The objects are the same in number, and each has kept everything
    but, possibly, the target of its relation. *)
Definition only_targets_change (w w' : World) : Prop :=
  length (heap w') = length (heap w)
  /\ forall (x : addr) (f f' : Field),
       heap w !! x = Some f -> heap w' !! x = Some f' ->
       attname f' = attname f /\ path f' = path f
       /\ default f' = default f /\ options f' = options f
       /\ (rel f = None <-> rel f' = None).

(** The objects are the same in number, and each has kept everything
    but, possibly, its default. *)
Definition only_defaults_change (w w' : World) : Prop :=
  length (heap w') = length (heap w)
  /\ forall (x : addr) (f f' : Field),
       heap w !! x = Some f -> heap w' !! x = Some f' ->
       attname f' = attname f /\ path f' = path f
       /\ rel f' = rel f /\ options f' = options f.

(** The same rename, the other way round. *)
Definition reversed (self : RenameField.t) : RenameField.t :=
  {| RenameField.model_name := RenameField.model_name self;
     RenameField.old_name := RenameField.new_name self;
     RenameField.new_name := RenameField.old_name self |}.

(** * Properties *)

(** Computations are unfolded down to the world they run in. *)
Tactic Notation "run_M" :=
  cbv beta iota zeta delta
    [bind ret raise lift get put alloc clone set_default set_rel_to
     get_rel_to invoke];
  cbn [heap calls fst snd].

Tactic Notation "run_M" "in" hyp(H) :=
  cbv beta iota zeta delta
    [bind ret raise lift get put alloc clone set_default set_rel_to
     get_rel_to invoke] in H;
  cbn [heap calls fst snd] in H.

(** ** The project state *)

Lemma set_fields_same (state : ProjectState) (key : string * string)
    (ms : ModelState) :
  models state !! key = Some ms ->
  set_fields state key (fields ms) = state.
Proof.
  intros Hms. destruct state as [m], ms as [fs]. unfold set_fields. simpl in *.
  f_equal. by apply insert_id.
Qed.

Lemma set_fields_lookup (state : ProjectState) (key : string * string)
    (fs : list (string * addr)) :
  models (set_fields state key fs) !! key = Some {| fields := fs |}.
Proof. unfold set_fields. simpl. apply lookup_insert_eq. Qed.

Lemma set_fields_twice (state : ProjectState) (key : string * string)
    (fs gs : list (string * addr)) :
  set_fields (set_fields state key fs) key gs = set_fields state key gs.
Proof. unfold set_fields. simpl. f_equal. apply insert_insert_eq. Qed.

(** ** The three list rewrites *)

Lemma keep_cons (n m : string) (a : addr) (l : list (string * addr)) :
  keep n ((m, a) :: l) = if decide (m = n) then keep n l else (m, a) :: keep n l.
Proof.
  unfold keep. rewrite filter_cons. simpl.
  destruct (decide (m <> n)) as [Hne | He]; destruct (decide (m = n)); 
    congruence || tauto.
Qed.

Lemma keep_absent (n : string) (l : list (string * addr)) :
  n ∉ l.*1 -> keep n l = l.
Proof.
  induction l as [| [m a] l IH]; intros Hn; [done |].
  rewrite keep_cons. simpl in Hn. apply not_elem_of_cons in Hn as [Hne Hn].
  destruct (decide (m = n)); [congruence |]. by rewrite IH.
Qed.

Lemma keep_app (n : string) (l k : list (string * addr)) :
  keep n (l ++ k) = keep n l ++ keep n k.
Proof. unfold keep. apply filter_app. Qed.

Lemma keep_keep (n : string) (l : list (string * addr)) :
  keep n (keep n l) = keep n l.
Proof.
  induction l as [| [m a] l IH]; [done |].
  rewrite keep_cons. destruct (decide (m = n)) as [He | Hne]; [done |].
  rewrite keep_cons. destruct (decide (m = n)); [done |]. by rewrite IH.
Qed.

Lemma replace_absent (n : string) (a : addr) (l : list (string * addr)) :
  n ∉ l.*1 -> replace n a l = l.
Proof.
  induction l as [| [m f] l IH]; intros Hn; [done |].
  simpl in *. apply not_elem_of_cons in Hn as [Hne Hn].
  rewrite bool_decide_eq_false_2 by congruence. by rewrite IH.
Qed.

Lemma replace_replace (n : string) (a : addr) (l : list (string * addr)) :
  replace n a (replace n a l) = replace n a l.
Proof.
  induction l as [| [m f] l IH]; [done |].
  simpl. rewrite IH. by destruct (bool_decide (m = n)).
Qed.

Lemma rename_absent (old new : string) (l : list (string * addr)) :
  old ∉ l.*1 -> rename old new l = l.
Proof.
  induction l as [| [m f] l IH]; intros Hn; [done |].
  simpl in *. apply not_elem_of_cons in Hn as [Hne Hn].
  rewrite bool_decide_eq_false_2 by congruence. by rewrite IH.
Qed.

Lemma rename_rename (old new : string) (l : list (string * addr)) :
  rename old new (rename old new l) = rename old new l.
Proof.
  induction l as [| [m f] l IH]; [done |].
  simpl. rewrite IH. f_equal.
  destruct (bool_decide (m = old)) eqn:E; [| by rewrite E].
  destruct (bool_decide (new = old)) eqn:E'; [| done].
  by apply bool_decide_eq_true_1 in E'.
Qed.

Lemma rename_back (old new : string) (l : list (string * addr)) :
  new = old \/ new ∉ l.*1 ->
  rename new old (rename old new l) = l.
Proof.
  intros H. induction l as [| [m f] l IH]; [done |].
  simpl. rewrite IH.
  2:{ destruct H as [-> | H]; [by left | right].
      simpl in H. by apply not_elem_of_cons in H as [_ H]. }
  f_equal. f_equal.
  destruct (bool_decide (m = old)) eqn:E.
  - apply bool_decide_eq_true_1 in E. subst m.
    by rewrite bool_decide_eq_true_2.
  - destruct (bool_decide (m = new)) eqn:E'; [| done].
    apply bool_decide_eq_true_1 in E'. subst m.
    destruct H as [-> | H].
    + by rewrite bool_decide_eq_true_2 in E.
    + simpl in H. apply not_elem_of_cons in H as [H _]. congruence.
Qed.

(** The operations on the state, in terms of the rewrites. *)
Lemma RemoveField_state_forwards_eq (self : RemoveField.t)
    (app_label : string) (state : ProjectState) (ms : ModelState)
    (w : World) :
  models state !! (app_label, lower (RemoveField.model_name self)) = Some ms ->
  RemoveField.state_forwards self app_label state w
  = (Ok (set_fields state (app_label, lower (RemoveField.model_name self))
           (keep (RemoveField.name self) (fields ms))), w).
Proof.
  intros Hms. unfold RemoveField.state_forwards, bind, lift.
  by rewrite Hms.
Qed.

Lemma AlterField_state_forwards_eq (self : AlterField.t)
    (app_label : string) (state : ProjectState) (ms : ModelState)
    (w : World) :
  models state !! (app_label, lower (AlterField.model_name self)) = Some ms ->
  AlterField.state_forwards self app_label state w
  = (Ok (set_fields state (app_label, lower (AlterField.model_name self))
           (replace (AlterField.name self) (AlterField.field self)
              (fields ms))), w).
Proof.
  intros Hms. unfold AlterField.state_forwards, bind, lift.
  by rewrite Hms.
Qed.

Lemma RenameField_state_forwards_eq (self : RenameField.t)
    (app_label : string) (state : ProjectState) (ms : ModelState)
    (w : World) :
  models state !! (app_label, lower (RenameField.model_name self)) = Some ms ->
  RenameField.state_forwards self app_label state w
  = (Ok (set_fields state (app_label, lower (RenameField.model_name self))
           (rename (RenameField.old_name self) (RenameField.new_name self)
              (fields ms))), w).
Proof.
  intros Hms. unfold RenameField.state_forwards, bind, lift.
  by rewrite Hms.
Qed.

(** ** State changes *)

Lemma AddField_state_forwards_eq (self : AddField.t) (app_label : string)
    (state : ProjectState) (ms : ModelState) (w : World) (f : Field) :
  models state !! (app_label, lower (AddField.model_name self)) = Some ms ->
  heap w !! AddField.field self = Some f ->
  AddField.state_forwards self app_label state w
  = if AddField.preserve_default self then
      (Ok (set_fields state (app_label, lower (AddField.model_name self))
             (fields ms ++ [(AddField.name self, AddField.field self)])), w)
    else
      (Ok (set_fields state (app_label, lower (AddField.model_name self))
             (fields ms ++ [(AddField.name self, length (heap w))])),
       {| heap := heap w ++ [with_default f NOT_PROVIDED];
          calls := calls w |}).
Proof.
  intros Hms Hf. unfold AddField.state_forwards.
  destruct (AddField.preserve_default self); simpl.
  - unfold bind, lift, ret. by rewrite Hms.
  - run_M. rewrite Hf. run_M.
    rewrite lookup_app_r by done. rewrite Nat.sub_diag. simpl.
    rewrite Hms. do 2 f_equal.
    rewrite insert_app_r_alt by done. by rewrite Nat.sub_diag.
Qed.

(** C10. For RemoveField, AlterField and RenameField: when no pair of
    the target model's field list carries exactly the operation's field
    name (the old name, for a rename), [state_forwards] returns without
    an error and the state it leaves is the state it was given: the
    same pairs in the same order. *)
Theorem state_forwards_missing_field (app_label mn n : string)
    (state : ProjectState) (ms : ModelState) (w : World) :
  models state !! (app_label, lower mn) = Some ms ->
  n ∉ names ms ->
  RemoveField.state_forwards
    {| RemoveField.model_name := mn; RemoveField.name := n |}
    app_label state w = (Ok state, w)
  /\ (forall f : addr,
        AlterField.state_forwards
          {| AlterField.model_name := mn; AlterField.name := n;
             AlterField.field := f |}
          app_label state w = (Ok state, w))
  /\ (forall new : string,
        RenameField.state_forwards
          {| RenameField.model_name := mn; RenameField.old_name := n;
             RenameField.new_name := new |}
          app_label state w = (Ok state, w)).
Proof.
  intros Hms Hn. unfold names in Hn. repeat split; intros.
  - rewrite (RemoveField_state_forwards_eq _ _ _ ms) by done. simpl.
    rewrite keep_absent by done. by rewrite set_fields_same.
  - rewrite (AlterField_state_forwards_eq _ _ _ ms) by done. simpl.
    rewrite replace_absent by done. by rewrite set_fields_same.
  - rewrite (RenameField_state_forwards_eq _ _ _ ms) by done. simpl.
    rewrite rename_absent by done. by rewrite set_fields_same.
Qed.

Lemma state_forwards_missing_field_witness :
  models rated_pony_state !! ("app", lower "Pony")
    = Some {| fields := [("id", 0); ("rating", 1)] |}
  /\ ("Rating" ∉ names {| fields := [("id", 0); ("rating", 1)] |})
  /\ RemoveField.state_forwards
       {| RemoveField.model_name := "Pony"; RemoveField.name := "Rating" |}
       "app" rated_pony_state pony_world = (Ok rated_pony_state, pony_world).
Proof.
  assert (H1 : models rated_pony_state !! ("app", lower "Pony")
               = Some {| fields := [("id", 0); ("rating", 1)] |})
    by reflexivity.
  assert (H2 : "Rating" ∉ names {| fields := [("id", 0); ("rating", 1)] |}).
  { unfold names. simpl. intros H.
    repeat (apply elem_of_cons in H as [H | H]; [discriminate H |]).
    by apply elem_of_nil in H. }
  split; [exact H1 |]. split; [exact H2 |].
  exact (proj1 (state_forwards_missing_field "app" "Pony" "Rating"
                  rated_pony_state _ pony_world H1 H2)).
Defined.

(** C4, as amended. On a state that contains the target model,
    [state_forwards] of RemoveField, AlterField and RenameField is
    idempotent: a second application leaves the state the first one
    produced. [state_forwards] of AddField is not: every application
    appends one more pair under the operation's name. *)
Theorem state_forwards_idempotent (op : operation) (app_label : string)
    (state : ProjectState) (ms : ModelState) (w : World) :
  models state !! (app_label, lower (model_name op)) = Some ms ->
  (is_add op = false ->
   exists st1 : ProjectState,
     state_forwards op app_label state w = (Ok st1, w)
     /\ state_forwards op app_label st1 w = (Ok st1, w))
  /\ (forall o : AddField.t,
        op = Add o ->
        is_Some (heap w !! AddField.field o) ->
        exists (st1 st2 : ProjectState) (w1 w2 : World) (a1 a2 : addr),
          state_forwards op app_label state w = (Ok st1, w1)
          /\ state_forwards op app_label st1 w1 = (Ok st2, w2)
          /\ models st1 !! (app_label, lower (model_name op))
             = Some {| fields := fields ms ++ [(AddField.name o, a1)] |}
          /\ models st2 !! (app_label, lower (model_name op))
             = Some {| fields := fields ms ++ [(AddField.name o, a1);
                                               (AddField.name o, a2)] |}).
Proof.
  intros Hms. split.
  - intros Hop. destruct op as [o | o | o | o]; [discriminate Hop | | |];
      simpl in *; eexists; split.
    + by apply RemoveField_state_forwards_eq.
    + rewrite (RemoveField_state_forwards_eq _ _ _ _ _ (set_fields_lookup _ _ _)).
      simpl. by rewrite keep_keep, set_fields_twice.
    + by apply AlterField_state_forwards_eq.
    + rewrite (AlterField_state_forwards_eq _ _ _ _ _ (set_fields_lookup _ _ _)).
      simpl. by rewrite replace_replace, set_fields_twice.
    + by apply RenameField_state_forwards_eq.
    + rewrite (RenameField_state_forwards_eq _ _ _ _ _ (set_fields_lookup _ _ _)).
      simpl. by rewrite rename_rename, set_fields_twice.
  - intros o -> [f Hf]. simpl in *.
    pose proof (AddField_state_forwards_eq o app_label state ms w f Hms Hf)
      as H1.
    destruct (AddField.preserve_default o) eqn:Hpd.
    + eexists _, _, _, _, _, _. split; [exact H1 |].
      split; [| split].
      * rewrite (AddField_state_forwards_eq o app_label _ _ w f
                   (set_fields_lookup _ _ _) Hf).
        rewrite Hpd. reflexivity.
      * apply set_fields_lookup.
      * rewrite set_fields_twice, set_fields_lookup. simpl.
        by rewrite <- app_assoc.
    + eexists _, _, _, _, _, _. split; [exact H1 |].
      split; [| split].
      * rewrite (AddField_state_forwards_eq o app_label _ _ _ f
                   (set_fields_lookup _ _ _)).
        -- rewrite Hpd. reflexivity.
        -- simpl. rewrite lookup_app_l; [done |]. by eapply lookup_lt_Some.
      * apply set_fields_lookup.
      * rewrite set_fields_twice, set_fields_lookup. simpl.
        by rewrite <- app_assoc.
Qed.

Lemma state_forwards_idempotent_witness :
  models rated_pony_state !! ("app", lower "Pony")
    = Some {| fields := [("id", 0); ("rating", 1)] |}
  /\ exists st1 : ProjectState,
       state_forwards
         (Remove {| RemoveField.model_name := "Pony";
                    RemoveField.name := "rating" |})
         "app" rated_pony_state pony_world = (Ok st1, pony_world)
       /\ state_forwards
            (Remove {| RemoveField.model_name := "Pony";
                       RemoveField.name := "rating" |})
            "app" st1 pony_world = (Ok st1, pony_world).
Proof.
  assert (H1 : models rated_pony_state !! ("app", lower "Pony")
               = Some {| fields := [("id", 0); ("rating", 1)] |})
    by reflexivity.
  split; [exact H1 |].
  exact (proj1 (state_forwards_idempotent
                  (Remove {| RemoveField.model_name := "Pony";
                             RemoveField.name := "rating" |})
                  "app" rated_pony_state _ pony_world H1) eq_refl).
Defined.

(** C4 fails for AddField: on the model "Pony" with fields [("id", _)],
    applying AddField("Pony", "rating", IntegerField(default=5)) once
    gives two pairs and applying it twice gives three. *)
Lemma AddField_state_forwards_not_idempotent :
  exists (st1 st2 : ProjectState) (w1 w2 : World),
    state_forwards
      (Add {| AddField.model_name := "Pony"; AddField.name := "rating";
              AddField.field := 1; AddField.preserve_default := true |})
      "app" pony_state pony_world = (Ok st1, w1)
    /\ state_forwards
         (Add {| AddField.model_name := "Pony"; AddField.name := "rating";
                 AddField.field := 1; AddField.preserve_default := true |})
         "app" st1 w1 = (Ok st2, w2)
    /\ models st1 !! ("app", "pony")
       = Some {| fields := [("id", 0); ("rating", 1)] |}
    /\ models st2 !! ("app", "pony")
       = Some {| fields := [("id", 0); ("rating", 1); ("rating", 1)] |}
    /\ models st1 !! ("app", "pony") <> models st2 !! ("app", "pony").
Proof.
  eexists _, _, _, _. split; [reflexivity |]. split; [reflexivity |].
  split; [reflexivity |]. split; [reflexivity |].
  vm_compute. discriminate.
Qed.

(** C3, as amended. On a state whose model M exists: if M has no field
    named n, AddField(M, n, f) followed by RemoveField(M, n) gives back
    the state, field order included; and if M has no field named new
    (or new is old), RenameField(M, old, new) followed by
    RenameField(M, new, old) gives back the state, field order
    included. *)
Theorem state_forwards_then_inverse (app_label mn : string)
    (state : ProjectState) (ms : ModelState) (w : World) :
  models state !! (app_label, lower mn) = Some ms ->
  (forall (n : string) (f : addr) (pd : bool),
      n ∉ names ms ->
      is_Some (heap w !! f) ->
      exists (st1 : ProjectState) (w1 : World),
        AddField.state_forwards
          {| AddField.model_name := mn; AddField.name := n;
             AddField.field := f; AddField.preserve_default := pd |}
          app_label state w = (Ok st1, w1)
        /\ RemoveField.state_forwards
             {| RemoveField.model_name := mn; RemoveField.name := n |}
             app_label st1 w1 = (Ok state, w1))
  /\ (forall old new : string,
        new = old \/ new ∉ names ms ->
        exists st1 : ProjectState,
          RenameField.state_forwards
            {| RenameField.model_name := mn; RenameField.old_name := old;
               RenameField.new_name := new |}
            app_label state w = (Ok st1, w)
          /\ RenameField.state_forwards
               {| RenameField.model_name := mn; RenameField.old_name := new;
                  RenameField.new_name := old |}
               app_label st1 w = (Ok state, w)).
Proof.
  intros Hms. split.
  - intros n f pd Hn [fo Hf].
    set (add := {| AddField.model_name := mn; AddField.name := n;
                   AddField.field := f; AddField.preserve_default := pd |}).
    pose proof (AddField_state_forwards_eq add app_label state ms w fo Hms Hf)
      as H1.
    assert (Hback : forall a : addr,
               set_fields
                 (set_fields state (app_label, lower mn)
                    (fields ms ++ [(n, a)]))
                 (app_label, lower mn)
                 (keep n (fields ms ++ [(n, a)])) = state).
    { intros a. rewrite set_fields_twice, keep_app, keep_absent by done.
      rewrite keep_cons. rewrite decide_True by done.
      replace (keep n []) with (@nil (string * nat)) by done.
      rewrite app_nil_r. by apply set_fields_same. }
    destruct pd; simpl in H1; eexists _, _; (split; [exact H1 |]);
      (etrans;
       [exact (RemoveField_state_forwards_eq
                 {| RemoveField.model_name := mn; RemoveField.name := n |}
                 app_label _ _ _
                 (set_fields_lookup state (app_label, lower mn) _)) |]);
      simpl; by rewrite Hback.
  - intros old new Hnew. eexists. split.
    + by apply RenameField_state_forwards_eq.
    + etrans;
        [exact (RenameField_state_forwards_eq
                  {| RenameField.model_name := mn;
                     RenameField.old_name := new;
                     RenameField.new_name := old |}
                  app_label _ _ _
                  (set_fields_lookup state (app_label, lower mn) _)) |].
      simpl. rewrite set_fields_twice, rename_back by done.
      by rewrite set_fields_same.
Qed.

Lemma state_forwards_then_inverse_witness :
  models pony_state !! ("app", lower "Pony")
    = Some {| fields := [("id", 0)] |}
  /\ exists (st1 : ProjectState) (w1 : World),
       AddField.state_forwards
         {| AddField.model_name := "Pony"; AddField.name := "rating";
            AddField.field := 1; AddField.preserve_default := false |}
         "app" pony_state pony_world = (Ok st1, w1)
       /\ RemoveField.state_forwards
            {| RemoveField.model_name := "Pony";
               RemoveField.name := "rating" |}
            "app" st1 w1 = (Ok pony_state, w1).
Proof.
  assert (H1 : models pony_state !! ("app", lower "Pony")
               = Some {| fields := [("id", 0)] |}) by reflexivity.
  assert (H2 : "rating" ∉ names {| fields := [("id", 0)] |}).
  { unfold names. simpl. intros H.
    repeat (apply elem_of_cons in H as [H | H]; [discriminate H |]).
    by apply elem_of_nil in H. }
  split; [exact H1 |].
  exact (proj1 (state_forwards_then_inverse "app" "Pony" pony_state _
                  pony_world H1)
           "rating" 1 false H2 (ex_intro _ _ eq_refl)).
Defined.

(** C3 fails for a rename onto a name the model already has: on fields
    [("name", _); ("nick", _)], RenameField(M, "name", "nick") followed by
    RenameField(M, "nick", "name") leaves two fields called "name". *)
Lemma RenameField_round_trip_collides :
  exists st1 st2 : ProjectState,
    RenameField.state_forwards
      {| RenameField.model_name := "Pony"; RenameField.old_name := "name";
         RenameField.new_name := "nick" |}
      "app" (state_of "app" "pony" [("name", 0); ("nick", 1)]) pony_world
    = (Ok st1, pony_world)
    /\ RenameField.state_forwards
         {| RenameField.model_name := "Pony"; RenameField.old_name := "nick";
            RenameField.new_name := "name" |}
         "app" st1 pony_world
       = (Ok st2, pony_world)
    /\ models st2 !! ("app", "pony")
       = Some {| fields := [("name", 0); ("name", 1)] |}
    /\ models st2 !! ("app", "pony")
       <> models (state_of "app" "pony" [("name", 0); ("nick", 1)])
            !! ("app", "pony").
Proof.
  eexists _, _. split; [reflexivity |]. split; [reflexivity |].
  split; [reflexivity |]. vm_compute. discriminate.
Qed.

(** C1. [state_forwards] of an AddField built with preserve_default=False,
    on a state that has the target model, appends to the model's field
    list the pair (name, f) where f is a new object, a clone of the
    operation's field whose default is NOT_PROVIDED; f is not the
    operation's own field object, which keeps its default. *)
Theorem AddField_state_forwards_clones (self : AddField.t)
    (app_label : string) (state : ProjectState) (ms : ModelState)
    (w : World) (f : Field) :
  AddField.preserve_default self = false ->
  models state !! (app_label, lower (AddField.model_name self)) = Some ms ->
  heap w !! AddField.field self = Some f ->
  exists (st1 : ProjectState) (w1 : World),
    AddField.state_forwards self app_label state w = (Ok st1, w1)
    /\ models st1 !! (app_label, lower (AddField.model_name self))
       = Some {| fields := fields ms
                           ++ [(AddField.name self, length (heap w))] |}
    /\ length (heap w) <> AddField.field self
    /\ heap w !! length (heap w) = None
    /\ heap w1 !! length (heap w) = Some (with_default f NOT_PROVIDED)
    /\ heap w1 !! AddField.field self = Some f.
Proof.
  intros Hpd Hms Hf.
  pose proof (AddField_state_forwards_eq self app_label state ms w f Hms Hf)
    as H1.
  rewrite Hpd in H1. eexists _, _. split; [exact H1 |].
  pose proof (lookup_lt_Some _ _ _ Hf) as Hlt.
  split; [apply set_fields_lookup |]. split; [lia |].
  split; [by apply lookup_ge_None |]. simpl. split.
  - rewrite lookup_app_r by done. by rewrite Nat.sub_diag.
  - by rewrite lookup_app_l.
Qed.

(** The scenario of C1: AddField("Pony", "rating",
    IntegerField(default=5), preserve_default=False) on the model
    "Pony" with fields [("id", _)]. *)
Lemma AddField_state_forwards_clones_witness :
  exists (st1 : ProjectState) (w1 : World),
    AddField.state_forwards pony_add "app" pony_state pony_world
    = (Ok st1, w1)
    /\ models st1 !! ("app", "pony")
       = Some {| fields := [("id", 0); ("rating", 2)] |}
    /\ 2 <> 1
    /\ heap pony_world !! 2 = None
    /\ heap w1 !! 2 = Some (IntegerField NOT_PROVIDED)
    /\ heap w1 !! 1 = Some (IntegerField (Value (VInt 5))).
Proof.
  exact (AddField_state_forwards_clones pony_add "app" pony_state
           {| fields := [("id", 0)] |} pony_world
           (IntegerField (Value (VInt 5))) eq_refl eq_refl eq_refl).
Defined.

(** ** Equality *)

Lemma kwargs_default (f : Field) :
  kwargs f !! "default"
  = match default f with
    | NOT_PROVIDED => None
    | Value v => Some v
    end.
Proof.
  unfold kwargs. destruct (default f).
  - apply lookup_delete_eq.
  - apply lookup_insert_eq.
Qed.

(** The canonical form tells the default. *)
Lemma deconstruct_default (f g : Field) :
  snd (deconstruct f) = snd (deconstruct g) -> default f = default g.
Proof.
  unfold deconstruct. simpl. intros H.
  assert (Hk : kwargs f !! "default" = kwargs g !! "default") by congruence.
  rewrite !kwargs_default in Hk.
  destruct (default f), (default g); congruence.
Qed.

Lemma AddField__eq__eq (o1 o2 : AddField.t) (w : World) (f g : Field) :
  heap w !! AddField.field o1 = Some f ->
  heap w !! AddField.field o2 = Some g ->
  AddField__eq__ o1 (Add o2) w
  = (Ok (bool_decide (AddField.name o1 = AddField.name o2)
         && bool_decide (lower (AddField.model_name o1)
                         = lower (AddField.model_name o2))
         && bool_decide (snd (deconstruct f) = snd (deconstruct g))), w).
Proof.
  intros Hf Hg. unfold AddField__eq__.
  do 2 (case_bool_decide; [| done]). run_M. by rewrite Hf, Hg.
Qed.

Lemma AlterField__eq__eq (o1 o2 : AlterField.t) (w : World) (f g : Field) :
  heap w !! AlterField.field o1 = Some f ->
  heap w !! AlterField.field o2 = Some g ->
  AlterField__eq__ o1 (Alter o2) w
  = (Ok (bool_decide (AlterField.name o1 = AlterField.name o2)
         && bool_decide (lower (AlterField.model_name o1)
                         = lower (AlterField.model_name o2))
         && bool_decide (snd (deconstruct f) = snd (deconstruct g))), w).
Proof.
  intros Hf Hg. unfold AlterField__eq__.
  do 2 (case_bool_decide; [| done]). run_M. by rewrite Hf, Hg.
Qed.

(** C6. Equality of operations is reflexive. Two AddField operations,
    and likewise two AlterField operations, with the same field name,
    model names equal up to case, and field descriptors whose
    [deconstruct()[1:]] are equal, are equal; when the descriptor of
    the second is that of the first with another default, they are not
    equal. *)
Theorem equality_of_operations (w : World) :
  (forall a : instance, live w (this a) -> equals a a w = (Ok true, w))
  /\ (forall (i j : nat) (o1 o2 : AddField.t) (f g : Field),
        AddField.name o1 = AddField.name o2 ->
        lower (AddField.model_name o1) = lower (AddField.model_name o2) ->
        heap w !! AddField.field o1 = Some f ->
        heap w !! AddField.field o2 = Some g ->
        (snd (deconstruct f) = snd (deconstruct g) ->
         equals {| ident := i; this := Add o1 |}
                {| ident := j; this := Add o2 |} w = (Ok true, w))
        /\ (forall d : Default,
              d <> default f -> g = with_default f d ->
              equals {| ident := i; this := Add o1 |}
                     {| ident := j; this := Add o2 |} w = (Ok false, w)))
  /\ (forall (i j : nat) (o1 o2 : AlterField.t) (f g : Field),
        AlterField.name o1 = AlterField.name o2 ->
        lower (AlterField.model_name o1) = lower (AlterField.model_name o2) ->
        heap w !! AlterField.field o1 = Some f ->
        heap w !! AlterField.field o2 = Some g ->
        (snd (deconstruct f) = snd (deconstruct g) ->
         equals {| ident := i; this := Alter o1 |}
                {| ident := j; this := Alter o2 |} w = (Ok true, w))
        /\ (forall d : Default,
              d <> default f -> g = with_default f d ->
              equals {| ident := i; this := Alter o1 |}
                     {| ident := j; this := Alter o2 |} w = (Ok false, w))).
Proof.
  split; [| split].
  - intros [i [o | o | o | o]] Hlive; unfold equals, live in *;
      cbn [this ident] in *.
    + destruct Hlive as [f Hf].
      rewrite (AddField__eq__eq o o w f f Hf Hf).
      by rewrite !bool_decide_eq_true_2.
    + unfold Operation.__eq__, ret. by rewrite bool_decide_eq_true_2.
    + destruct Hlive as [f Hf].
      rewrite (AlterField__eq__eq o o w f f Hf Hf).
      by rewrite !bool_decide_eq_true_2.
    + unfold Operation.__eq__, ret. by rewrite bool_decide_eq_true_2.
  - intros i j o1 o2 f g Hn Hm Hf Hg. unfold equals. cbn [this ident].
    rewrite (AddField__eq__eq o1 o2 w f g Hf Hg).
    rewrite !bool_decide_eq_true_2 by done. split.
    + intros Hd. by rewrite bool_decide_eq_true_2.
    + intros d Hd ->. rewrite bool_decide_eq_false_2; [done |].
      intros Heq. apply deconstruct_default in Heq. simpl in Heq.
      congruence.
  - intros i j o1 o2 f g Hn Hm Hf Hg. unfold equals. cbn [this ident].
    rewrite (AlterField__eq__eq o1 o2 w f g Hf Hg).
    rewrite !bool_decide_eq_true_2 by done. split.
    + intros Hd. by rewrite bool_decide_eq_true_2.
    + intros d Hd ->. rewrite bool_decide_eq_false_2; [done |].
      intros Heq. apply deconstruct_default in Heq. simpl in Heq.
      congruence.
Qed.

Lemma equality_of_operations_witness :
  live rating_world (Add (add_rating "Pony" 1))
  /\ equals {| ident := 0; this := Add (add_rating "Pony" 1) |}
            {| ident := 0; this := Add (add_rating "Pony" 1) |} rating_world
     = (Ok true, rating_world)
  /\ equals {| ident := 0; this := Add (add_rating "Pony" 1) |}
            {| ident := 1; this := Add (add_rating "pony" 2) |} rating_world
     = (Ok true, rating_world)
  /\ equals {| ident := 0; this := Add (add_rating "Pony" 1) |}
            {| ident := 2; this := Add (add_rating "pony" 3) |} rating_world
     = (Ok false, rating_world).
Proof.
  assert (Hlive : live rating_world (Add (add_rating "Pony" 1)))
    by (eexists; reflexivity).
  destruct (equality_of_operations rating_world) as [Hrefl [Hadd _]].
  split; [exact Hlive |]. split; [| split].
  - exact (Hrefl {| ident := 0; this := Add (add_rating "Pony" 1) |} Hlive).
  - exact (proj1 (Hadd 0 1 (add_rating "Pony" 1) (add_rating "pony" 2)
                    _ _ eq_refl eq_refl eq_refl eq_refl) eq_refl).
  - refine (proj2 (Hadd 0 2 (add_rating "Pony" 1) (add_rating "pony" 3)
                     _ _ eq_refl eq_refl eq_refl eq_refl)
              (Value (VInt 7)) _ eq_refl).
    discriminate.
Defined.

(** C7. RemoveField has no equality of its own, so it compares by
    identity: two RemoveField objects with the same model name and
    field name that are distinct objects are unequal, and a
    RemoveField object is equal to an operation only if that is the
    same object. *)
Theorem RemoveField_equality_is_identity (i : nat) (r : RemoveField.t)
    (w : World) :
  (forall j : nat,
      i <> j ->
      equals {| ident := i; this := Remove r |}
             {| ident := j; this := Remove r |} w = (Ok false, w))
  /\ (forall other : instance,
        equals {| ident := i; this := Remove r |} other w = (Ok true, w)
        <-> ident other = i).
Proof.
  unfold equals, Operation.__eq__, ret. cbn [this ident]. split.
  - intros j Hij. by rewrite bool_decide_eq_false_2.
  - intros other. split.
    + intros H. case_bool_decide; [done | discriminate H].
    + intros ->. by rewrite bool_decide_eq_true_2.
Qed.

Lemma RemoveField_equality_is_identity_witness :
  0 <> 1
  /\ equals {| ident := 0; this := Remove pony_remove |}
            {| ident := 1; this := Remove pony_remove |} pony_world
     = (Ok false, pony_world).
Proof.
  assert (H : 0 <> 1) by discriminate.
  split; [exact H |].
  exact (proj1 (RemoveField_equality_is_identity 0 pony_remove pony_world)
           1 H).
Defined.

(** ** Running against the schema editor *)

(** C5. [AlterField.database_backwards] is [database_forwards] on the
    arguments it was given: it does nothing of its own, so that a caller
    who passes the two states in reverse order gets the forward
    alteration between them. *)
Theorem AlterField_database_backwards_is_forwards (C : Collaborators)
    (self : AlterField.t) (app_label : string) (schema_editor : SchemaEditor)
    (from_state to_state : ProjectState) (w : World) :
  AlterField.database_backwards self app_label schema_editor
    from_state to_state w
  = AlterField.database_forwards self app_label schema_editor
      from_state to_state w.
Proof. reflexivity. Qed.

(** C8. When the router answers false for the target model, as
    rendered from either state, on the editor's connection, then
    [database_forwards] and [database_backwards] of every operation
    return without an error and leave the world as it was: the schema
    editor is not called. *)
Theorem router_denial_is_noop (C : Collaborators) (op : operation)
    (app_label : string) (schema_editor : SchemaEditor)
    (from_state to_state : ProjectState) (from_model to_model : Model)
    (w : World) :
  get_model (render from_state) app_label (model_name op) = Some from_model ->
  get_model (render to_state) app_label (model_name op) = Some to_model ->
  allow_migrate (connection_alias schema_editor) from_model = false ->
  allow_migrate (connection_alias schema_editor) to_model = false ->
  database_forwards op app_label schema_editor from_state to_state w
  = (Ok tt, w)
  /\ database_backwards op app_label schema_editor from_state to_state w
     = (Ok tt, w).
Proof.
  intros Hfrom Hto Hdf Hdt.
  destruct op as [o | o | o | o]; simpl in Hfrom, Hto; split;
    cbv [database_forwards database_backwards
         AddField.database_forwards AddField.database_backwards
         RemoveField.database_forwards RemoveField.database_backwards
         AlterField.database_forwards AlterField.database_backwards
         RenameField.database_forwards RenameField.database_backwards];
    run_M; rewrite ?Hfrom, ?Hto; run_M; rewrite ?Hdf, ?Hdt; reflexivity.
Qed.

(** The scenario of C8: RemoveField("Pony", "rating") run forwards and
    backwards under a router that answers false; no call is logged,
    even by an editor that would raise. *)
Lemma router_denial_is_noop_witness :
  database_forwards (H := direct false) (Remove pony_remove) "app"
    broken_editor rated_pony_state pony_state pony_world
  = (Ok tt, pony_world)
  /\ database_backwards (H := direct false) (Remove pony_remove) "app"
       broken_editor rated_pony_state pony_state pony_world
     = (Ok tt, pony_world).
Proof.
  exact (router_denial_is_noop (direct false) (Remove pony_remove) "app"
           broken_editor rated_pony_state pony_state _ _ pony_world
           eq_refl eq_refl eq_refl eq_refl).
Defined.

(** C2, as amended. Let an AddField built with preserve_default=False
    run [database_forwards] to completion under a router that permits
    the migration. Then the schema editor was called once, with
    [add_field] on the field object that the to-model gives for the
    name, and that object carried the operation's default at the call;
    after the return the default of that object is NOT_PROVIDED. The
    operation's own field object is only read: unless it is that same
    object, it keeps its default. *)
Theorem AddField_database_forwards_restores_default (C : Collaborators)
    (self : AddField.t) (app_label : string) (schema_editor : SchemaEditor)
    (from_state to_state : ProjectState) (to_model : Model) (w w' : World) :
  AddField.preserve_default self = false ->
  get_model (render to_state) app_label (AddField.model_name self)
  = Some to_model ->
  allow_migrate (connection_alias schema_editor) to_model = true ->
  AddField.database_forwards self app_label schema_editor
    from_state to_state w = (Ok tt, w') ->
  exists (from_model : Model) (a : addr) (own rendered : Field),
    get_model (render from_state) app_label (AddField.model_name self)
    = Some from_model
    /\ get_new_field to_model (AddField.name self) true = Some a
    /\ heap w !! AddField.field self = Some own
    /\ heap w !! a = Some rendered
    /\ calls w'
       = calls w
         ++ [{| call := add_field from_model a;
                seen := <[a := with_default rendered (default own)]>
                          (heap w) |}]
    /\ heap w' = <[a := with_default rendered NOT_PROVIDED]> (heap w)
    /\ default <$> heap w' !! a = Some NOT_PROVIDED
    /\ (a <> AddField.field self ->
        heap w' !! AddField.field self = Some own).
Proof.
  intros Hpd Hto Hallow Hrun.
  unfold AddField.database_forwards in Hrun. rewrite Hpd in Hrun.
  run_M in Hrun.
  destruct (get_model (render from_state) app_label (AddField.model_name self))
    as [from_model |] eqn:Hfrom; [| discriminate Hrun].
  rewrite Hto in Hrun. run_M in Hrun. rewrite Hallow in Hrun.
  destruct (get_new_field to_model (AddField.name self) true)
    as [a |] eqn:Ha; [| discriminate Hrun].
  cbn [negb] in Hrun. run_M in Hrun.
  destruct (heap w !! AddField.field self) as [own |] eqn:Hown;
    [| discriminate Hrun].
  destruct (heap w !! a) as [rendered |] eqn:Hrendered;
    [| discriminate Hrun].
  run_M in Hrun.
  pose proof (lookup_lt_Some _ _ _ Hrendered) as Hlt.
  destruct (raises schema_editor _ _); [discriminate Hrun |].
  cbn [heap calls] in Hrun.
  rewrite list_lookup_insert_eq in Hrun by done.
  cbn [heap calls] in Hrun.
  rewrite list_insert_insert_eq in Hrun.
  injection Hrun as <-. cbn [heap calls].
  exists from_model, a, own, rendered.
  repeat (split; [done |]). split.
  - by rewrite list_lookup_insert_eq.
  - intros Hne. by rewrite list_lookup_insert_ne.
Qed.

Lemma AddField_database_forwards_restores_default_witness :
  AddField.database_forwards (H := direct true) pony_add "app" editor
    pony_state added_pony_state added_world = (Ok tt, restored_world)
  /\ exists (from_model : Model) (a : addr) (own rendered : Field),
       get_model (Collaborators := direct true)
         (render (Collaborators := direct true) pony_state) "app" "Pony"
       = Some from_model
       /\ a = 2
       /\ heap added_world !! 1 = Some own
       /\ heap added_world !! a = Some rendered
       /\ calls restored_world
          = calls added_world
            ++ [{| call := add_field from_model a;
                   seen := <[a := with_default rendered (default own)]>
                             (heap added_world) |}]
       /\ default <$> heap restored_world !! a = Some NOT_PROVIDED.
Proof.
  assert (Hrun : AddField.database_forwards (H := direct true) pony_add
                   "app" editor pony_state added_pony_state added_world
                 = (Ok tt, restored_world)) by reflexivity.
  split; [exact Hrun |].
  destruct (AddField_database_forwards_restores_default (direct true)
              pony_add "app" editor pony_state added_pony_state _
              added_world restored_world eq_refl eq_refl eq_refl Hrun)
    as (from_model & a & own & rendered & H1 & H2 & H3 & H4 & H5 & H6 & H7
        & H8).
  exists from_model, a, own, rendered.
  split; [exact H1 |]. split; [by injection H2 |].
  split; [exact H3 |]. split; [exact H4 |]. split; [exact H5 | exact H7].
Defined.

(** C2 fails as it is stated: the field object passed into the operation
    does not show the restored default. After AddField("Pony", "rating",
    IntegerField(default=5), preserve_default=False) has changed the
    state and run against the database, the operation's own field still
    has default 5; NOT_PROVIDED is on the clone that the state holds. *)
Lemma AddField_database_forwards_keeps_own_default :
  AddField.state_forwards pony_add "app" pony_state pony_world
  = (Ok added_pony_state, added_world)
  /\ AddField.database_forwards (H := direct true) pony_add "app" editor
       pony_state added_pony_state added_world = (Ok tt, restored_world)
  /\ default <$> heap restored_world !! AddField.field pony_add
     = Some (Value (VInt 5))
  /\ default <$> heap restored_world !! AddField.field pony_add
     <> Some NOT_PROVIDED.
Proof.
  split; [reflexivity |]. split; [reflexivity |]. split; [reflexivity |].
  discriminate.
Qed.

(** The relation target of the object at [a], if it is a related
    field. *)
Lemma with_rel_to_target (h : list Field) (a : addr) (f : Field)
    (t : RelTo) :
  h !! a = Some f ->
  to <$> (<[a := with_rel_to f t]> h !! a ≫= rel) = Some t.
Proof.
  intros Hf. rewrite list_lookup_insert_eq by by eapply lookup_lt_Some.
  reflexivity.
Qed.

(** The two patches of [AlterField.database_forwards]. *)
Lemma AlterField_patches_from (C : Collaborators)
    (self : AlterField.t) (app_label : string) (schema_editor : SchemaEditor)
    (from_state to_state : ProjectState) (from_model to_model : Model)
    (a b : addr) (fa fb : Field) (s : string) (t : RelTo) (w : World) :
  get_model (render from_state) app_label (AlterField.model_name self)
  = Some from_model ->
  get_model (render to_state) app_label (AlterField.model_name self)
  = Some to_model ->
  allow_migrate (connection_alias schema_editor) to_model = true ->
  get_new_field from_model (AlterField.name self) true = Some a ->
  get_new_field to_model (AlterField.name self) true = Some b ->
  heap w !! a = Some fa ->
  heap w !! b = Some fb ->
  rel fa = Some {| to := Unresolved s |} ->
  s <> "" ->
  rel fb = Some {| to := t |} ->
  AlterField.database_forwards self app_label schema_editor
    from_state to_state w
  = invoke schema_editor (alter_field from_model a b)
      {| heap := <[a := with_rel_to fa t]> (heap w); calls := calls w |}.
Proof.
  intros Hfrom Hto Hallow Ha Hb Hfa Hfb Hra Hs Hrb.
  unfold AlterField.database_forwards. run_M.
  rewrite Hfrom, Hto. run_M. rewrite Hallow, Ha, Hb. run_M.
  rewrite Hfa, Hra. cbn [to truth is_string].
  apply String.eqb_neq in Hs. rewrite Hs. cbn [negb].
  rewrite Hfb, Hrb. cbn [to]. by rewrite Hfa, Hra.
Qed.

Lemma AlterField_patches_to (C : Collaborators)
    (self : AlterField.t) (app_label : string) (schema_editor : SchemaEditor)
    (from_state to_state : ProjectState) (from_model to_model : Model)
    (a b : addr) (fa fb : Field) (s : string) (m : Model) (w : World) :
  get_model (render from_state) app_label (AlterField.model_name self)
  = Some from_model ->
  get_model (render to_state) app_label (AlterField.model_name self)
  = Some to_model ->
  allow_migrate (connection_alias schema_editor) to_model = true ->
  get_new_field from_model (AlterField.name self) true = Some a ->
  get_new_field to_model (AlterField.name self) true = Some b ->
  heap w !! a = Some fa ->
  heap w !! b = Some fb ->
  rel fa = Some {| to := Resolved m |} ->
  rel fb = Some {| to := Unresolved s |} ->
  AlterField.database_forwards self app_label schema_editor
    from_state to_state w
  = invoke schema_editor (alter_field from_model a b)
      {| heap := <[b := with_rel_to fb (Resolved m)]> (heap w);
         calls := calls w |}.
Proof.
  intros Hfrom Hto Hallow Ha Hb Hfa Hfb Hra Hrb.
  unfold AlterField.database_forwards. run_M.
  rewrite Hfrom, Hto. run_M. rewrite Hallow, Ha, Hb. run_M.
  rewrite Hfa, Hra. cbn [to truth is_string].
  rewrite Hfb, Hrb. cbn [to is_string]. rewrite Hfa, Hra. cbn [to].
  by rewrite Hfb, Hrb.
Qed.

Lemma invoke_calls (schema_editor : SchemaEditor) (c : Call) (w : World) :
  calls (snd (invoke schema_editor c w))
  = calls w ++ [{| call := c; seen := heap w |}].
Proof. unfold invoke. by destruct (raises schema_editor w c). Qed.

(** C9. Let AlterField run [database_forwards] under a router that
    permits the migration, on a field that is a relation in both
    models. If the target of the from-field is a string reference (a
    non-empty string) and that of the to-field a model, or the target
    of the from-field is a model and that of the to-field a string,
    then [alter_field] is called, and it is called with both field
    objects pointing to that model. *)
Theorem AlterField_database_forwards_patches_target (C : Collaborators)
    (self : AlterField.t) (app_label : string) (schema_editor : SchemaEditor)
    (from_state to_state : ProjectState) (from_model to_model : Model)
    (a b : addr) (fa fb : Field) (s : string) (m : Model) (w : World) :
  get_model (render from_state) app_label (AlterField.model_name self)
  = Some from_model ->
  get_model (render to_state) app_label (AlterField.model_name self)
  = Some to_model ->
  allow_migrate (connection_alias schema_editor) to_model = true ->
  get_new_field from_model (AlterField.name self) true = Some a ->
  get_new_field to_model (AlterField.name self) true = Some b ->
  heap w !! a = Some fa ->
  heap w !! b = Some fb ->
  (rel fa = Some {| to := Unresolved s |} /\ s <> ""
   /\ rel fb = Some {| to := Resolved m |})
  \/ (rel fa = Some {| to := Resolved m |}
      /\ rel fb = Some {| to := Unresolved s |}) ->
  exists h : list Field,
    AlterField.database_forwards self app_label schema_editor
      from_state to_state w
    = invoke schema_editor (alter_field from_model a b)
        {| heap := h; calls := calls w |}
    /\ calls (snd (AlterField.database_forwards self app_label schema_editor
                    from_state to_state w))
       = calls w ++ [{| call := alter_field from_model a b; seen := h |}]
    /\ to <$> (h !! a ≫= rel) = Some (Resolved m)
    /\ to <$> (h !! b ≫= rel) = Some (Resolved m).
Proof.
  intros Hfrom Hto Hallow Ha Hb Hfa Hfb Hrel.
  assert (Hab : a <> b).
  { intros ->. rewrite Hfa in Hfb. injection Hfb as ->.
    destruct Hrel as [(H1 & _ & H2) | (H1 & H2)]; congruence. }
  destruct Hrel as [(Hra & Hs & Hrb) | (Hra & Hrb)].
  - exists (<[a := with_rel_to fa (Resolved m)]> (heap w)).
    rewrite (AlterField_patches_from C self app_label schema_editor
               from_state to_state from_model to_model a b fa fb s
               (Resolved m) w) by done.
    split; [done |]. split; [apply invoke_calls |].
    split; [by apply with_rel_to_target |].
    rewrite list_lookup_insert_ne by done. rewrite Hfb. simpl.
    by rewrite Hrb.
  - exists (<[b := with_rel_to fb (Resolved m)]> (heap w)).
    rewrite (AlterField_patches_to C self app_label schema_editor
               from_state to_state from_model to_model a b fa fb s m w)
      by done.
    split; [done |]. split; [apply invoke_calls |].
    split; [| by apply with_rel_to_target].
    rewrite list_lookup_insert_ne by done. rewrite Hfa. simpl.
    by rewrite Hra.
Qed.

(** The scenario of C9: AlterField("Pony", "rider", ForeignKey(to="Rider"))
    with the string "Rider" on the from-side and the model on the
    to-side. *)
Lemma AlterField_database_forwards_patches_target_witness :
  exists h : list Field,
    AlterField.database_forwards (H := direct true) pony_alter "app" editor
      (state_of "app" "pony" [("rider", 0)])
      (state_of "app" "pony" [("rider", 1)]) rider_world
    = invoke editor
        (alter_field {| object_name := "Pony";
                        meta_fields := [("rider", 0)] |} 0 1)
        {| heap := h; calls := calls rider_world |}
    /\ calls (snd (AlterField.database_forwards (H := direct true)
                     pony_alter "app" editor
                     (state_of "app" "pony" [("rider", 0)])
                     (state_of "app" "pony" [("rider", 1)]) rider_world))
       = calls rider_world
         ++ [{| call := alter_field {| object_name := "Pony";
                                       meta_fields := [("rider", 0)] |} 0 1;
                seen := h |}]
    /\ to <$> (h !! 0 ≫= rel) = Some (Resolved Rider)
    /\ to <$> (h !! 1 ≫= rel) = Some (Resolved Rider).
Proof.
  assert (Hs : "Rider" <> "") by discriminate.
  exact (AlterField_database_forwards_patches_target (direct true)
           pony_alter "app" editor
           (state_of "app" "pony" [("rider", 0)])
           (state_of "app" "pony" [("rider", 1)])
           {| object_name := "Pony"; meta_fields := [("rider", 0)] |}
           {| object_name := "Pony"; meta_fields := [("rider", 1)] |}
           0 1 (ForeignKey (Unresolved "Rider")) (ForeignKey (Resolved Rider))
           "Rider" Rider rider_world
           eq_refl eq_refl eq_refl eq_refl eq_refl eq_refl eq_refl
           (or_introl (conj eq_refl (conj Hs eq_refl)))).
Defined.

(** * Further properties of the operations *)

(** ** What [state_forwards] changes *)

Lemma state_forwards_Ok_inv (op : operation) (app_label : string)
    (state st1 : ProjectState) (w w1 : World) :
  state_forwards op app_label state w = (Ok st1, w1) ->
  exists (ms : ModelState) (fs : list (string * addr)),
    models state !! target op app_label = Some ms
    /\ st1 = set_fields state (target op app_label) fs.
Proof.
  unfold target. destruct op as [o | o | o | o]; cbn [state_forwards model_name];
    intros Hrun.
  - unfold AddField.state_forwards in Hrun.
    destruct (AddField.preserve_default o); cbn [negb] in Hrun;
      run_M in Hrun.
    + destruct (models state !! _) as [ms |] eqn:Hms; [| discriminate Hrun].
      injection Hrun as <- <-. by eexists _, _.
    + destruct (heap w !! AddField.field o) as [f |]; [| discriminate Hrun].
      run_M in Hrun.
      rewrite lookup_app_r in Hrun by done.
      rewrite Nat.sub_diag in Hrun. cbn in Hrun.
      destruct (models state !! _) as [ms |] eqn:Hms; [| discriminate Hrun].
      injection Hrun as <- <-. by eexists _, _.
  - unfold RemoveField.state_forwards in Hrun. run_M in Hrun.
    destruct (models state !! _) as [ms |] eqn:Hms; [| discriminate Hrun].
    injection Hrun as <- <-. by eexists _, _.
  - unfold AlterField.state_forwards in Hrun. run_M in Hrun.
    destruct (models state !! _) as [ms |] eqn:Hms; [| discriminate Hrun].
    injection Hrun as <- <-. by eexists _, _.
  - unfold RenameField.state_forwards in Hrun. run_M in Hrun.
    destruct (models state !! _) as [ms |] eqn:Hms; [| discriminate Hrun].
    injection Hrun as <- <-. by eexists _, _.
Qed.

Lemma state_forwards_other_keys (op : operation) (app_label : string)
    (state st1 : ProjectState) (w w1 : World) (key : string * string) :
  state_forwards op app_label state w = (Ok st1, w1) ->
  key <> target op app_label ->
  models st1 !! key = models state !! key.
Proof.
  intros Hrun Hkey.
  destruct (state_forwards_Ok_inv _ _ _ _ _ _ Hrun) as (ms & fs & _ & ->).
  unfold set_fields. cbn [models]. by rewrite lookup_insert_ne.
Qed.

(** X1. [state_forwards] of any operation changes one model only, the
    one under (app_label, model_name.lower()): every other model of the
    state, in this application or another, is left as it was. *)
Theorem state_forwards_frame (op : operation) (app_label : string)
    (state st1 : ProjectState) (w w1 : World) (key : string * string) :
  state_forwards op app_label state w = (Ok st1, w1) ->
  key <> target op app_label ->
  models st1 !! key = models state !! key.
Proof. apply state_forwards_other_keys. Qed.

Lemma state_forwards_frame_witness :
  state_forwards (Add pony_add) "app" pony_state pony_world
  = (Ok added_pony_state, added_world)
  /\ ("app", "rider") <> target (Add pony_add) "app"
  /\ models added_pony_state !! ("app", "rider")
     = models pony_state !! ("app", "rider").
Proof.
  assert (H1 : state_forwards (Add pony_add) "app" pony_state pony_world
               = (Ok added_pony_state, added_world)) by reflexivity.
  assert (H2 : ("app", "rider") <> target (Add pony_add) "app")
    by discriminate.
  split; [exact H1 |]. split; [exact H2 |].
  exact (state_forwards_frame (Add pony_add) "app" pony_state
           added_pony_state pony_world added_world ("app", "rider") H1 H2).
Defined.

(** X2. When the state has no model under the operation's key,
    [state_forwards] of any operation raises KeyError. RemoveField,
    AlterField and RenameField then leave the world as it was;
    AddField with preserve_default=False has already made its clone. *)
Theorem state_forwards_missing_model (op : operation) (app_label : string)
    (state : ProjectState) (w : World) :
  models state !! target op app_label = None ->
  live w op ->
  fst (state_forwards op app_label state w) = Raise KeyError
  /\ (is_add op = false -> snd (state_forwards op app_label state w) = w)
  /\ (forall (o : AddField.t) (f : Field),
        op = Add o ->
        heap w !! AddField.field o = Some f ->
        snd (state_forwards op app_label state w)
        = if AddField.preserve_default o then w
          else {| heap := heap w ++ [with_default f NOT_PROVIDED];
                  calls := calls w |}).
Proof.
  unfold target. intros Hms Hlive.
  destruct op as [o | o | o | o]; cbn [state_forwards model_name] in *.
  - destruct Hlive as [f Hf].
    unfold AddField.state_forwards.
    destruct (AddField.preserve_default o) eqn:Hpd; cbn [negb]; run_M.
    + rewrite Hms. split; [done | split; [done |]].
      intros ? ? [= <-] _. by rewrite Hpd.
    + rewrite Hf. run_M. rewrite lookup_app_r by done.
      rewrite Nat.sub_diag. cbn. rewrite Hms. cbn.
      split; [done | split; [done |]].
      intros ? g [= <-] Hg. rewrite Hpd.
      rewrite Hf in Hg. injection Hg as <-.
      rewrite insert_app_r_alt by done. by rewrite Nat.sub_diag.
  - unfold RemoveField.state_forwards. run_M. rewrite Hms. by repeat split.
  - unfold AlterField.state_forwards. run_M. rewrite Hms. by repeat split.
  - unfold RenameField.state_forwards. run_M. rewrite Hms. by repeat split.
Qed.

Lemma state_forwards_missing_model_witness :
  models pony_state !! target (Add pony_add) "stable" = None
  /\ live pony_world (Add pony_add)
  /\ fst (state_forwards (Add pony_add) "stable" pony_state pony_world)
     = Raise KeyError.
Proof.
  assert (H1 : models pony_state !! target (Add pony_add) "stable" = None)
    by reflexivity.
  assert (H2 : live pony_world (Add pony_add)) by (eexists; reflexivity).
  split; [exact H1 |]. split; [exact H2 |].
  exact (proj1 (state_forwards_missing_model (Add pony_add) "stable"
                  pony_state pony_world H1 H2)).
Defined.

(** ** What the three rewrites leave behind *)

Lemma elem_of_keep (n : string) (l : list (string * addr))
    (p : string * addr) :
  p ∈ keep n l <-> p ∈ l /\ p.1 <> n.
Proof.
  unfold keep. rewrite list_elem_of_filter. destruct p as [m a]. simpl.
  tauto.
Qed.

Lemma keep_names (n : string) (l : list (string * addr)) :
  n ∉ (keep n l).*1.
Proof.
  intros Hin. apply list_elem_of_fmap in Hin as ([m a] & Hn & Hp).
  apply elem_of_keep in Hp as [_ Hne]. simpl in *. congruence.
Qed.

Lemma keep_sublist (n : string) (l : list (string * addr)) :
  keep n l `sublist_of` l.
Proof. unfold keep. apply sublist_filter. Qed.

Lemma keep_comm (n m : string) (l : list (string * addr)) :
  keep n (keep m l) = keep m (keep n l).
Proof.
  induction l as [| [x a] l IH]; [done |].
  rewrite !keep_cons.
  destruct (decide (x = m)), (decide (x = n)); rewrite ?keep_cons;
    rewrite ?decide_True by done; rewrite ?decide_False by done;
    by rewrite ?IH.
Qed.

Lemma replace_names (n : string) (a : addr) (l : list (string * addr)) :
  (replace n a l).*1 = l.*1.
Proof.
  unfold replace. induction l as [| [m f] l IH]; [done |].
  simpl. by f_equal.
Qed.

Lemma replace_lookup (n : string) (a : addr) (l : list (string * addr))
    (i : nat) (m : string) (f : addr) :
  l !! i = Some (m, f) ->
  replace n a l !! i = Some (m, if bool_decide (m = n) then a else f).
Proof.
  intros Hi. unfold replace.
  change (map ?g l) with (g <$> l). rewrite list_lookup_fmap, Hi.
  reflexivity.
Qed.

Lemma replace_last_wins (n : string) (a b : addr)
    (l : list (string * addr)) :
  replace n b (replace n a l) = replace n b l.
Proof.
  induction l as [| [m f] l IH]; [done |].
  simpl. rewrite IH. by destruct (bool_decide (m = n)).
Qed.

Lemma keep_replace (n : string) (a : addr) (l : list (string * addr)) :
  keep n (replace n a l) = keep n l.
Proof.
  induction l as [| [m f] l IH]; [done |].
  cbn [replace map]. rewrite !keep_cons. fold (replace n a l). rewrite IH.
  destruct (decide (m = n)); [done |].
  by rewrite bool_decide_eq_false_2.
Qed.

Lemma rename_objects (old new : string) (l : list (string * addr)) :
  (rename old new l).*2 = l.*2.
Proof.
  unfold rename. induction l as [| [m f] l IH]; [done |].
  simpl. by f_equal.
Qed.

Lemma rename_names (old new : string) (l : list (string * addr)) :
  (rename old new l).*1
  = (fun n => if bool_decide (n = old) then new else n) <$> l.*1.
Proof.
  unfold rename. induction l as [| [m f] l IH]; [done |].
  simpl. by f_equal.
Qed.

Lemma rename_chain (a b c : string) (l : list (string * addr)) :
  b ∉ l.*1 ->
  rename b c (rename a b l) = rename a c l.
Proof.
  induction l as [| [m f] l IH]; intros Hb; [done |].
  simpl in *. apply not_elem_of_cons in Hb as [Hne Hb].
  rewrite IH by done. f_equal. f_equal.
  destruct (bool_decide (m = a)) eqn:E.
  - by rewrite bool_decide_eq_true_2.
  - by rewrite bool_decide_eq_false_2 by congruence.
Qed.

(** X3. [RemoveField.state_forwards] leaves no field of the given name
    in the target model, whether there were none, one or several; the
    pairs it keeps are exactly those of another name, in their order. *)
Theorem RemoveField_state_forwards_removes (self : RemoveField.t)
    (app_label : string) (state : ProjectState) (ms : ModelState)
    (w : World) :
  models state !! (app_label, lower (RemoveField.model_name self)) = Some ms ->
  exists (st1 : ProjectState) (ms1 : ModelState),
    RemoveField.state_forwards self app_label state w = (Ok st1, w)
    /\ models st1 !! (app_label, lower (RemoveField.model_name self))
       = Some ms1
    /\ (RemoveField.name self ∉ names ms1)
    /\ (forall p : string * addr,
          p ∈ fields ms1 <-> p ∈ fields ms /\ p.1 <> RemoveField.name self)
    /\ fields ms1 `sublist_of` fields ms.
Proof.
  intros Hms. eexists _, _.
  split; [by apply RemoveField_state_forwards_eq |].
  split; [apply set_fields_lookup |]. unfold names. cbn [fields].
  split; [apply keep_names |]. split; [apply elem_of_keep |].
  apply keep_sublist.
Qed.

Lemma RemoveField_state_forwards_removes_witness :
  exists (st1 : ProjectState) (ms1 : ModelState),
    RemoveField.state_forwards pony_remove "app"
      (state_of "app" "pony" [("rating", 1); ("id", 0); ("rating", 2)])
      added_world = (Ok st1, added_world)
    /\ models st1 !! ("app", lower "Pony") = Some ms1
    /\ ("rating" ∉ names ms1)
    /\ (forall p : string * addr,
          p ∈ fields ms1
          <-> p ∈ [("rating", 1); ("id", 0); ("rating", 2)]
              /\ p.1 <> "rating")
    /\ fields ms1 `sublist_of` [("rating", 1); ("id", 0); ("rating", 2)].
Proof.
  exact (RemoveField_state_forwards_removes pony_remove "app"
           (state_of "app" "pony" [("rating", 1); ("id", 0); ("rating", 2)])
           {| fields := [("rating", 1); ("id", 0); ("rating", 2)] |}
           added_world eq_refl).
Defined.

(** X4. [AlterField.state_forwards] keeps the names and the order of the
    target model's fields; at every position the pair keeps its field
    object unless its name is the operation's, in which case it holds
    the operation's field object. *)
Theorem AlterField_state_forwards_replaces (self : AlterField.t)
    (app_label : string) (state : ProjectState) (ms : ModelState)
    (w : World) :
  models state !! (app_label, lower (AlterField.model_name self)) = Some ms ->
  exists (st1 : ProjectState) (ms1 : ModelState),
    AlterField.state_forwards self app_label state w = (Ok st1, w)
    /\ models st1 !! (app_label, lower (AlterField.model_name self))
       = Some ms1
    /\ names ms1 = names ms
    /\ (forall (i : nat) (m : string) (f : addr),
          fields ms !! i = Some (m, f) ->
          fields ms1 !! i
          = Some (m, if bool_decide (m = AlterField.name self)
                     then AlterField.field self else f)).
Proof.
  intros Hms. eexists _, _.
  split; [by apply AlterField_state_forwards_eq |].
  split; [apply set_fields_lookup |]. unfold names. cbn [fields].
  split; [apply replace_names |]. intros i m f. apply replace_lookup.
Qed.

Lemma AlterField_state_forwards_replaces_witness :
  exists (st1 : ProjectState) (ms1 : ModelState),
    AlterField.state_forwards
      {| AlterField.model_name := "Pony"; AlterField.name := "rating";
         AlterField.field := 2 |}
      "app" rated_pony_state added_world = (Ok st1, added_world)
    /\ models st1 !! ("app", lower "Pony") = Some ms1
    /\ names ms1 = ["id"; "rating"]
    /\ (forall (i : nat) (m : string) (f : addr),
          [("id", 0); ("rating", 1)] !! i = Some (m, f) ->
          fields ms1 !! i
          = Some (m, if bool_decide (m = "rating") then 2 else f)).
Proof.
  exact (AlterField_state_forwards_replaces
           {| AlterField.model_name := "Pony"; AlterField.name := "rating";
              AlterField.field := 2 |}
           "app" rated_pony_state
           {| fields := [("id", 0); ("rating", 1)] |} added_world eq_refl).
Defined.

(** X5. [RenameField.state_forwards] keeps the field objects of the
    target model and their order. When the two names differ, no field
    is called old_name afterwards; a field is called new_name
    afterwards iff one was called new_name or old_name before; and any
    third name is among the fields afterwards iff it was before. *)
Theorem RenameField_state_forwards_renames (self : RenameField.t)
    (app_label : string) (state : ProjectState) (ms : ModelState)
    (w : World) :
  models state !! (app_label, lower (RenameField.model_name self)) = Some ms ->
  exists (st1 : ProjectState) (ms1 : ModelState),
    RenameField.state_forwards self app_label state w = (Ok st1, w)
    /\ models st1 !! (app_label, lower (RenameField.model_name self))
       = Some ms1
    /\ (fields ms1).*2 = (fields ms).*2
    /\ (RenameField.old_name self <> RenameField.new_name self ->
        RenameField.old_name self ∉ names ms1)
    /\ (RenameField.new_name self ∈ names ms1
        <-> RenameField.new_name self ∈ names ms
            \/ RenameField.old_name self ∈ names ms)
    /\ (forall n : string,
          n <> RenameField.old_name self ->
          n <> RenameField.new_name self ->
          n ∈ names ms1 <-> n ∈ names ms).
Proof.
  intros Hms. eexists _, _.
  split; [by apply RenameField_state_forwards_eq |].
  split; [apply set_fields_lookup |]. unfold names. cbn [fields].
  split; [apply rename_objects |].
  rewrite rename_names.
  set (old := RenameField.old_name self).
  set (new := RenameField.new_name self).
  split; [| split].
  - intros Hne Hin. apply list_elem_of_fmap in Hin as (m & Hm & _).
    case_bool_decide; congruence.
  - rewrite list_elem_of_fmap. split.
    + intros (m & Hm & Hin). case_bool_decide; [right | left]; congruence.
    + intros [Hin | Hin].
      * exists new. split; [| done]. by case_bool_decide.
      * exists old. split; [| done]. by rewrite bool_decide_eq_true_2.
  - intros n Hno Hnn. rewrite list_elem_of_fmap. split.
    + intros (m & Hm & Hin). case_bool_decide; congruence.
    + intros Hin. exists n. split; [| done].
      by rewrite bool_decide_eq_false_2.
Qed.

Lemma RenameField_state_forwards_renames_witness :
  exists (st1 : ProjectState) (ms1 : ModelState),
    RenameField.state_forwards
      {| RenameField.model_name := "Pony"; RenameField.old_name := "rating";
         RenameField.new_name := "score" |}
      "app" rated_pony_state added_world = (Ok st1, added_world)
    /\ models st1 !! ("app", lower "Pony") = Some ms1
    /\ (fields ms1).*2 = [0; 1]
    /\ ("rating" <> "score" -> "rating" ∉ names ms1)
    /\ ("score" ∈ names ms1
        <-> "score" ∈ ["id"; "rating"] \/ "rating" ∈ ["id"; "rating"])
    /\ (forall n : string,
          n <> "rating" -> n <> "score" ->
          n ∈ names ms1 <-> n ∈ ["id"; "rating"]).
Proof.
  exact (RenameField_state_forwards_renames
           {| RenameField.model_name := "Pony";
              RenameField.old_name := "rating";
              RenameField.new_name := "score" |}
           "app" rated_pony_state
           {| fields := [("id", 0); ("rating", 1)] |} added_world eq_refl).
Defined.

(** ** How state changes compose *)

(** X6. Two AlterField operations on the same field of the same model:
    the second one alone gives the same state as the first followed by
    the second. *)
Theorem AlterField_last_wins (app_label mn n : string) (f g : addr)
    (state : ProjectState) (ms : ModelState) (w : World) :
  models state !! (app_label, lower mn) = Some ms ->
  exists st1 : ProjectState,
    AlterField.state_forwards
      {| AlterField.model_name := mn; AlterField.name := n;
         AlterField.field := f |} app_label state w = (Ok st1, w)
    /\ AlterField.state_forwards
         {| AlterField.model_name := mn; AlterField.name := n;
            AlterField.field := g |} app_label st1 w
       = AlterField.state_forwards
           {| AlterField.model_name := mn; AlterField.name := n;
              AlterField.field := g |} app_label state w.
Proof.
  intros Hms. eexists. split; [by apply AlterField_state_forwards_eq |].
  etrans;
    [exact (AlterField_state_forwards_eq
              {| AlterField.model_name := mn; AlterField.name := n;
                 AlterField.field := g |} app_label _ _ w
              (set_fields_lookup state (app_label, lower mn) _)) |].
  rewrite (AlterField_state_forwards_eq _ _ _ ms) by done.
  simpl. by rewrite set_fields_twice, replace_last_wins.
Qed.

Lemma AlterField_last_wins_witness :
  exists st1 : ProjectState,
    AlterField.state_forwards
      {| AlterField.model_name := "Pony"; AlterField.name := "rating";
         AlterField.field := 2 |} "app" rated_pony_state added_world
    = (Ok st1, added_world)
    /\ AlterField.state_forwards
         {| AlterField.model_name := "Pony"; AlterField.name := "rating";
            AlterField.field := 0 |} "app" st1 added_world
       = AlterField.state_forwards
           {| AlterField.model_name := "Pony"; AlterField.name := "rating";
              AlterField.field := 0 |} "app" rated_pony_state added_world.
Proof.
  exact (AlterField_last_wins "app" "Pony" "rating" 2 0 rated_pony_state
           {| fields := [("id", 0); ("rating", 1)] |} added_world eq_refl).
Defined.

(** X7. Renames chain: when the model has no field called b,
    RenameField(M, a, b) followed by RenameField(M, b, c) gives the
    state that RenameField(M, a, c) gives. *)
Theorem RenameField_chain (app_label mn a b c : string)
    (state : ProjectState) (ms : ModelState) (w : World) :
  models state !! (app_label, lower mn) = Some ms ->
  b ∉ names ms ->
  exists st1 : ProjectState,
    RenameField.state_forwards
      {| RenameField.model_name := mn; RenameField.old_name := a;
         RenameField.new_name := b |} app_label state w = (Ok st1, w)
    /\ RenameField.state_forwards
         {| RenameField.model_name := mn; RenameField.old_name := b;
            RenameField.new_name := c |} app_label st1 w
       = RenameField.state_forwards
           {| RenameField.model_name := mn; RenameField.old_name := a;
              RenameField.new_name := c |} app_label state w.
Proof.
  intros Hms Hb. eexists. split; [by apply RenameField_state_forwards_eq |].
  etrans;
    [exact (RenameField_state_forwards_eq
              {| RenameField.model_name := mn; RenameField.old_name := b;
                 RenameField.new_name := c |} app_label _ _ w
              (set_fields_lookup state (app_label, lower mn) _)) |].
  rewrite (RenameField_state_forwards_eq _ _ _ ms) by done.
  simpl. by rewrite set_fields_twice, rename_chain.
Qed.

Lemma RenameField_chain_witness :
  models rated_pony_state !! ("app", lower "Pony")
  = Some {| fields := [("id", 0); ("rating", 1)] |}
  /\ exists st1 : ProjectState,
       RenameField.state_forwards
         {| RenameField.model_name := "Pony";
            RenameField.old_name := "rating";
            RenameField.new_name := "score" |}
         "app" rated_pony_state added_world = (Ok st1, added_world)
       /\ RenameField.state_forwards
            {| RenameField.model_name := "Pony";
               RenameField.old_name := "score";
               RenameField.new_name := "grade" |} "app" st1 added_world
          = RenameField.state_forwards
              {| RenameField.model_name := "Pony";
                 RenameField.old_name := "rating";
                 RenameField.new_name := "grade" |}
              "app" rated_pony_state added_world.
Proof.
  assert (H1 : models rated_pony_state !! ("app", lower "Pony")
               = Some {| fields := [("id", 0); ("rating", 1)] |})
    by reflexivity.
  assert (H2 : "score" ∉ names {| fields := [("id", 0); ("rating", 1)] |}).
  { unfold names. simpl. intros H.
    repeat (apply elem_of_cons in H as [H | H]; [discriminate H |]).
    by apply elem_of_nil in H. }
  split; [exact H1 |].
  exact (RenameField_chain "app" "Pony" "rating" "score" "grade"
           rated_pony_state _ added_world H1 H2).
Defined.

(** X8. Two RemoveField operations on the same model commute: either
    order gives the same state. *)
Theorem RemoveField_commute (app_label mn n1 n2 : string)
    (state : ProjectState) (ms : ModelState) (w : World) :
  models state !! (app_label, lower mn) = Some ms ->
  exists st1 st2 st3 : ProjectState,
    RemoveField.state_forwards
      {| RemoveField.model_name := mn; RemoveField.name := n1 |}
      app_label state w = (Ok st1, w)
    /\ RemoveField.state_forwards
         {| RemoveField.model_name := mn; RemoveField.name := n2 |}
         app_label st1 w = (Ok st3, w)
    /\ RemoveField.state_forwards
         {| RemoveField.model_name := mn; RemoveField.name := n2 |}
         app_label state w = (Ok st2, w)
    /\ RemoveField.state_forwards
         {| RemoveField.model_name := mn; RemoveField.name := n1 |}
         app_label st2 w = (Ok st3, w).
Proof.
  intros Hms. eexists _, _, _.
  split; [by apply RemoveField_state_forwards_eq |].
  split;
    [exact (RemoveField_state_forwards_eq
              {| RemoveField.model_name := mn; RemoveField.name := n2 |}
              app_label _ _ w
              (set_fields_lookup state (app_label, lower mn) _)) |].
  split; [by apply RemoveField_state_forwards_eq |].
  etrans;
    [exact (RemoveField_state_forwards_eq
              {| RemoveField.model_name := mn; RemoveField.name := n1 |}
              app_label _ _ w
              (set_fields_lookup state (app_label, lower mn) _)) |].
  simpl. by rewrite !set_fields_twice, keep_comm.
Qed.

Lemma RemoveField_commute_witness :
  exists st1 st2 st3 : ProjectState,
    RemoveField.state_forwards
      {| RemoveField.model_name := "Pony"; RemoveField.name := "id" |}
      "app" rated_pony_state added_world = (Ok st1, added_world)
    /\ RemoveField.state_forwards
         {| RemoveField.model_name := "Pony"; RemoveField.name := "rating" |}
         "app" st1 added_world = (Ok st3, added_world)
    /\ RemoveField.state_forwards
         {| RemoveField.model_name := "Pony"; RemoveField.name := "rating" |}
         "app" rated_pony_state added_world = (Ok st2, added_world)
    /\ RemoveField.state_forwards
         {| RemoveField.model_name := "Pony"; RemoveField.name := "id" |}
         "app" st2 added_world = (Ok st3, added_world).
Proof.
  exact (RemoveField_commute "app" "Pony" "id" "rating" rated_pony_state
           {| fields := [("id", 0); ("rating", 1)] |} added_world eq_refl).
Defined.

(** X9. An AlterField followed by a RemoveField of the same field gives
    the state that the RemoveField alone gives. *)
Theorem AlterField_then_RemoveField (app_label mn n : string) (f : addr)
    (state : ProjectState) (ms : ModelState) (w : World) :
  models state !! (app_label, lower mn) = Some ms ->
  exists st1 : ProjectState,
    AlterField.state_forwards
      {| AlterField.model_name := mn; AlterField.name := n;
         AlterField.field := f |} app_label state w = (Ok st1, w)
    /\ RemoveField.state_forwards
         {| RemoveField.model_name := mn; RemoveField.name := n |}
         app_label st1 w
       = RemoveField.state_forwards
           {| RemoveField.model_name := mn; RemoveField.name := n |}
           app_label state w.
Proof.
  intros Hms. eexists. split; [by apply AlterField_state_forwards_eq |].
  etrans;
    [exact (RemoveField_state_forwards_eq
              {| RemoveField.model_name := mn; RemoveField.name := n |}
              app_label _ _ w
              (set_fields_lookup state (app_label, lower mn) _)) |].
  rewrite (RemoveField_state_forwards_eq _ _ _ ms) by done.
  simpl. by rewrite set_fields_twice, keep_replace.
Qed.

Lemma AlterField_then_RemoveField_witness :
  exists st1 : ProjectState,
    AlterField.state_forwards
      {| AlterField.model_name := "Pony"; AlterField.name := "rating";
         AlterField.field := 2 |} "app" rated_pony_state added_world
    = (Ok st1, added_world)
    /\ RemoveField.state_forwards pony_remove "app" st1 added_world
       = RemoveField.state_forwards pony_remove "app" rated_pony_state
           added_world.
Proof.
  exact (AlterField_then_RemoveField "app" "Pony" "rating" 2
           rated_pony_state {| fields := [("id", 0); ("rating", 1)] |}
           added_world eq_refl).
Defined.

(** ** Reversal against the schema editor *)

(** X10. Reversing an addition is performing the removal: for every
    router, renderer and schema editor, [AddField.database_backwards]
    does what [RemoveField.database_forwards] of the same model and
    field name does on the same arguments. *)
Theorem AddField_backwards_is_RemoveField_forwards (C : Collaborators)
    (self : AddField.t) (app_label : string) (schema_editor : SchemaEditor)
    (from_state to_state : ProjectState) (w : World) :
  AddField.database_backwards self app_label schema_editor
    from_state to_state w
  = RemoveField.database_forwards
      {| RemoveField.model_name := AddField.model_name self;
         RemoveField.name := AddField.name self |}
      app_label schema_editor from_state to_state w.
Proof. reflexivity. Qed.

(** X11. Reversing a removal is performing the addition with the
    default kept: [RemoveField.database_backwards] does what
    [AddField.database_forwards] of the same model and field name,
    built with preserve_default=True, does on the same arguments,
    whatever field object that AddField holds. *)
Theorem RemoveField_backwards_is_AddField_forwards (C : Collaborators)
    (self : RemoveField.t) (field : addr) (app_label : string)
    (schema_editor : SchemaEditor) (from_state to_state : ProjectState)
    (w : World) :
  RemoveField.database_backwards self app_label schema_editor
    from_state to_state w
  = AddField.database_forwards
      {| AddField.model_name := RemoveField.model_name self;
         AddField.name := RemoveField.name self;
         AddField.field := field;
         AddField.preserve_default := true |}
      app_label schema_editor from_state to_state w.
Proof.
  unfold RemoveField.database_backwards, AddField.database_forwards.
  cbn [AddField.model_name AddField.name AddField.preserve_default negb].
  run_M.
  destruct (get_model (render from_state) _ _) as [fm |]; [| done].
  destruct (get_model (render to_state) _ _) as [tm |]; [| done].
  destruct (allow_migrate _ tm); [| done].
  destruct (get_new_field tm _ true) as [a |]; [| done].
  destruct (raises schema_editor w (add_field fm a)); done.
Qed.

(** X12. Reversing a rename is performing the reverse rename:
    [RenameField.database_backwards] does what [database_forwards] of
    the rename with old and new name exchanged does on the same
    arguments, and the other way round. *)
Theorem RenameField_backwards_is_reversed_forwards (C : Collaborators)
    (self : RenameField.t) (app_label : string)
    (schema_editor : SchemaEditor) (from_state to_state : ProjectState)
    (w : World) :
  RenameField.database_backwards self app_label schema_editor
    from_state to_state w
  = RenameField.database_forwards (reversed self) app_label schema_editor
      from_state to_state w
  /\ RenameField.database_forwards self app_label schema_editor
       from_state to_state w
     = RenameField.database_backwards (reversed self) app_label schema_editor
         from_state to_state w.
Proof. split; reflexivity. Qed.

(** ** What the database methods do to the world *)

#[local] Instance same_calls_preorder : PreOrder same_calls.
Proof. split; unfold same_calls; [done | intros ???; congruence]. Qed.

#[local] Instance same_heap_preorder : PreOrder same_heap.
Proof. split; unfold same_heap; [done | intros ???; congruence]. Qed.

#[local] Instance only_targets_change_preorder : PreOrder only_targets_change.
Proof.
  split.
  - intros w. split; [done |]. intros x f f' Hf Hf'.
    rewrite Hf in Hf'. by injection Hf' as <-.
  - intros w1 w2 w3 [Hl12 H12] [Hl23 H23]. split; [congruence |].
    intros x f f'' Hf Hf''.
    destruct (lookup_lt_is_Some_2 (heap w2) x) as [f' Hf'].
    { rewrite Hl12. by eapply lookup_lt_Some. }
    destruct (H12 x f f' Hf Hf') as (? & ? & ? & ? & ?).
    destruct (H23 x f' f'' Hf' Hf'') as (? & ? & ? & ? & ?).
    repeat split; try congruence; tauto.
Qed.

#[local] Instance only_defaults_change_preorder :
  PreOrder only_defaults_change.
Proof.
  split.
  - intros w. split; [done |]. intros x f f' Hf Hf'.
    rewrite Hf in Hf'. by injection Hf' as <-.
  - intros w1 w2 w3 [Hl12 H12] [Hl23 H23]. split; [congruence |].
    intros x f f'' Hf Hf''.
    destruct (lookup_lt_is_Some_2 (heap w2) x) as [f' Hf'].
    { rewrite Hl12. by eapply lookup_lt_Some. }
    destruct (H12 x f f' Hf Hf') as (? & ? & ? & ?).
    destruct (H23 x f' f'' Hf' Hf'') as (? & ? & ? & ?).
    repeat split; congruence.
Qed.

Section Steps.
Context {R : World -> World -> Prop} `{!PreOrder R}.

Lemma steps_ret {A : Type} (a : A) : steps R (ret a).
Proof. intros w. reflexivity. Qed.

Lemma steps_raise {A : Type} (e : exn) : steps R (@raise A e).
Proof. intros w. reflexivity. Qed.

Lemma steps_lift {A : Type} (e : exn) (o : option A) : steps R (lift e o).
Proof. destruct o; [apply steps_ret | apply steps_raise]. Qed.

Lemma steps_get (a : addr) : steps R (get a).
Proof. intros w. unfold get. apply steps_lift. Qed.

Lemma steps_bind {A B : Type} (m : M A) (k : A -> M B) :
  steps R m -> (forall a : A, steps R (k a)) -> steps R (bind m k).
Proof.
  intros Hm Hk w. unfold bind. specialize (Hm w).
  destruct (m w) as [[a | e] w']; cbn [snd] in *; [| done].
  etrans; [exact Hm | apply Hk].
Qed.
End Steps.

Lemma steps_get_rel_to {R : World -> World -> Prop} `{!PreOrder R}
    (a : addr) :
  steps R (get_rel_to a).
Proof.
  unfold get_rel_to. apply steps_bind; [apply steps_get |].
  intros f. destruct (rel f); [apply steps_ret | apply steps_raise].
Qed.

Lemma same_calls_put (a : addr) (f : Field) : steps same_calls (put a f).
Proof. by intros w. Qed.

Lemma same_calls_set_default (a : addr) (d : Default) :
  steps same_calls (set_default a d).
Proof.
  unfold set_default. apply steps_bind; [apply steps_get |].
  intros f. apply same_calls_put.
Qed.

Lemma same_calls_set_rel_to (a : addr) (t : RelTo) :
  steps same_calls (set_rel_to a t).
Proof.
  unfold set_rel_to. apply steps_bind; [apply steps_get |].
  intros f. destruct (rel f); [apply same_calls_put | apply steps_raise].
Qed.

Lemma same_heap_invoke (schema_editor : SchemaEditor) (c : Call) :
  steps same_heap (invoke schema_editor c).
Proof.
  intros w. unfold invoke, same_heap. by destruct (raises schema_editor w c).
Qed.

Lemma one_call_invoke (schema_editor : SchemaEditor) (c : Call) :
  steps at_most_one_call (invoke schema_editor c).
Proof.
  intros w. eexists [_]. split; [apply invoke_calls | done].
Qed.

Lemma one_call_quiet {A : Type} (m : M A) :
  steps same_calls m -> steps at_most_one_call m.
Proof.
  intros Hm w. exists []. split; [| simpl; lia].
  rewrite app_nil_r. apply Hm.
Qed.

Lemma one_call_bind_l {A B : Type} (m : M A) (k : A -> M B) :
  steps same_calls m -> (forall a : A, steps at_most_one_call (k a)) ->
  steps at_most_one_call (bind m k).
Proof.
  intros Hm Hk w. unfold bind. specialize (Hm w).
  destruct (m w) as [[a | e] w']; cbn [snd] in *.
  - destruct (Hk a w') as (es & Hes & Hlen). exists es.
    split; [| done]. rewrite Hes. by rewrite Hm.
  - exists []. split; [| simpl; lia]. by rewrite app_nil_r.
Qed.

Lemma one_call_bind_r {A B : Type} (m : M A) (k : A -> M B) :
  steps at_most_one_call m -> (forall a : A, steps same_calls (k a)) ->
  steps at_most_one_call (bind m k).
Proof.
  intros Hm Hk w. unfold bind. destruct (Hm w) as (es & Hes & Hlen).
  destruct (m w) as [[a | e] w']; cbn [snd] in *.
  - exists es. split; [| done]. rewrite <- Hes. apply Hk.
  - by exists es.
Qed.

(** Computations that do not call the schema editor. *)
Ltac quiet :=
  repeat first
    [ apply steps_ret | apply steps_raise | apply steps_lift
    | apply steps_get | apply steps_get_rel_to
    | apply same_calls_put | apply same_calls_set_default
    | apply same_calls_set_rel_to
    | apply steps_bind; [| intros ?]
    | match goal with
      | |- steps _ (if ?b then _ else _) => destruct b
      | |- steps _ (match ?x with _ => _ end) => destruct x
      end ].

(** Computations that call it once at most. *)
Ltac one_call :=
  repeat first
    [ apply one_call_invoke
    | apply one_call_quiet; solve [quiet]
    | apply one_call_bind_l; [solve [quiet] | intros ?]
    | apply one_call_bind_r; [| intros ?; solve [quiet]]
    | match goal with
      | |- steps _ (if ?b then _ else _) => destruct b
      | |- steps _ (match ?x with _ => _ end) => destruct x
      end ].

(** X13. Every database method of every operation calls the schema
    editor once at most, and never drops a logged call: the log it
    leaves is the log it found, followed by no call or one, whether the
    method returns or raises. *)
Theorem database_methods_call_once_at_most (C : Collaborators)
    (op : operation) (app_label : string) (schema_editor : SchemaEditor)
    (from_state to_state : ProjectState) :
  steps at_most_one_call
    (database_forwards op app_label schema_editor from_state to_state)
  /\ steps at_most_one_call
       (database_backwards op app_label schema_editor from_state to_state).
Proof.
  destruct op as [o | o | o | o]; split;
    cbv [database_forwards database_backwards
         AddField.database_forwards AddField.database_backwards
         RemoveField.database_forwards RemoveField.database_backwards
         AlterField.database_forwards AlterField.database_backwards
         RenameField.database_forwards RenameField.database_backwards];
    one_call.
Qed.

Lemma only_targets_change_put (a : addr) (f : Field) (t : RelTo) (w : World) :
  heap w !! a = Some f -> rel f <> None ->
  only_targets_change w (snd (put a (with_rel_to f t) w)).
Proof.
  intros Hf Hrel. unfold put, only_targets_change. cbn [snd heap].
  split; [apply length_insert |].
  intros x g g' Hg Hg'. destruct (decide (x = a)) as [-> | Hne].
  - rewrite list_lookup_insert_eq in Hg' by by eapply lookup_lt_Some.
    rewrite Hf in Hg. injection Hg as <-. injection Hg' as <-.
    cbn. repeat split; done.
  - rewrite list_lookup_insert_ne in Hg' by done.
    rewrite Hg in Hg'. by injection Hg' as <-.
Qed.

Lemma only_targets_change_set_rel_to (a : addr) (t : RelTo) :
  steps only_targets_change (set_rel_to a t).
Proof.
  intros w. unfold set_rel_to, bind, get.
  destruct (heap w !! a) as [f |] eqn:Hf; cbn; [| reflexivity].
  destruct (rel f) eqn:Hrel; [| reflexivity].
  apply only_targets_change_put; [done | congruence].
Qed.

Lemma only_targets_change_invoke (schema_editor : SchemaEditor) (c : Call) :
  steps only_targets_change (invoke schema_editor c).
Proof.
  intros w. pose proof (same_heap_invoke schema_editor c w) as Hh.
  unfold same_heap in Hh. split; [by rewrite Hh |].
  rewrite Hh. intros x f f' Hf Hf'. rewrite Hf in Hf'. by injection Hf' as <-.
Qed.

Lemma only_defaults_change_set_default (a : addr) (d : Default) :
  steps only_defaults_change (set_default a d).
Proof.
  intros w. unfold set_default, bind, get.
  destruct (heap w !! a) as [f |] eqn:Hf; cbn; [| reflexivity].
  unfold only_defaults_change. cbn [heap]. split; [apply length_insert |].
  intros x g g' Hg Hg'. destruct (decide (x = a)) as [-> | Hne].
  - rewrite list_lookup_insert_eq in Hg' by by eapply lookup_lt_Some.
    rewrite Hf in Hg. injection Hg as <-. by injection Hg' as <-.
  - rewrite list_lookup_insert_ne in Hg' by done.
    rewrite Hg in Hg'. by injection Hg' as <-.
Qed.

Lemma only_defaults_change_invoke (schema_editor : SchemaEditor) (c : Call) :
  steps only_defaults_change (invoke schema_editor c).
Proof.
  intros w. pose proof (same_heap_invoke schema_editor c w) as Hh.
  unfold same_heap in Hh. split; [by rewrite Hh |].
  rewrite Hh. intros x f f' Hf Hf'. rewrite Hf in Hf'. by injection Hf' as <-.
Qed.

(** Computations built from reads, the given writes and calls. *)
Ltac stepwise :=
  repeat first
    [ apply steps_ret | apply steps_raise | apply steps_lift
    | apply steps_get | apply steps_get_rel_to
    | apply same_heap_invoke
    | apply only_targets_change_invoke | apply only_targets_change_set_rel_to
    | apply only_defaults_change_invoke
    | apply only_defaults_change_set_default
    | apply steps_bind; [| intros ?]
    | match goal with
      | |- steps _ (if ?b then _ else _) => destruct b
      | |- steps _ (match ?x with _ => _ end) => destruct x
      end ].

(** X14. The database methods of RemoveField and RenameField, and
    [database_backwards] of AddField, never write to a field object:
    the store they leave is the store they found, whether they return
    or raise. So does [database_forwards] of an AddField built with
    preserve_default=True. *)
Theorem database_methods_that_only_read (C : Collaborators)
    (app_label : string) (schema_editor : SchemaEditor)
    (from_state to_state : ProjectState) :
  (forall o : RemoveField.t,
      steps same_heap
        (RemoveField.database_forwards o app_label schema_editor
           from_state to_state)
      /\ steps same_heap
           (RemoveField.database_backwards o app_label schema_editor
              from_state to_state))
  /\ (forall o : RenameField.t,
        steps same_heap
          (RenameField.database_forwards o app_label schema_editor
             from_state to_state)
        /\ steps same_heap
             (RenameField.database_backwards o app_label schema_editor
                from_state to_state))
  /\ (forall o : AddField.t,
        steps same_heap
          (AddField.database_backwards o app_label schema_editor
             from_state to_state)
        /\ (AddField.preserve_default o = true ->
            steps same_heap
              (AddField.database_forwards o app_label schema_editor
                 from_state to_state))).
Proof.
  split; [| split]; intros o; split;
    cbv [AddField.database_forwards AddField.database_backwards
         RemoveField.database_forwards RemoveField.database_backwards
         RenameField.database_forwards RenameField.database_backwards];
    try (intros ->; cbn [negb]); stepwise.
Qed.

Lemma database_methods_that_only_read_witness :
  AddField.preserve_default (add_rating "Pony" 1) = true
  /\ steps same_heap
       (AddField.database_forwards (H := direct true) (add_rating "Pony" 1)
          "app" broken_editor pony_state rated_pony_state).
Proof.
  split; [reflexivity |].
  exact (proj2 (proj2 (proj2 (database_methods_that_only_read (direct true)
                                "app" broken_editor pony_state
                                rated_pony_state))
                  (add_rating "Pony" 1)) eq_refl).
Defined.

(** X15. [database_forwards] and [database_backwards] of AlterField
    keep the number of field objects and, of every one of them, the
    bound name, class, default and keyword arguments, and whether it is
    a relation: the target of a relation is all they may change.
    [database_forwards] of AddField keeps, of every field object,
    everything but the default. This holds whether they return or
    raise. *)
Theorem database_methods_that_write (C : Collaborators)
    (app_label : string) (schema_editor : SchemaEditor)
    (from_state to_state : ProjectState) :
  (forall o : AlterField.t,
      steps only_targets_change
        (AlterField.database_forwards o app_label schema_editor
           from_state to_state)
      /\ steps only_targets_change
           (AlterField.database_backwards o app_label schema_editor
              from_state to_state))
  /\ (forall o : AddField.t,
        steps only_defaults_change
          (AddField.database_forwards o app_label schema_editor
             from_state to_state)).
Proof.
  split; intros o; [split |];
    cbv [AddField.database_forwards
         AlterField.database_forwards AlterField.database_backwards];
    stepwise.
Qed.

(** ** Errors against the schema editor *)

(** X16. When [add_field] raises during [database_forwards] of an
    AddField built with preserve_default=False, the error goes to the
    caller and the default is not taken back: the field object of the
    to-model is left carrying the operation's default. *)
Theorem AddField_database_forwards_failure (C : Collaborators)
    (self : AddField.t) (app_label : string) (schema_editor : SchemaEditor)
    (from_state to_state : ProjectState) (from_model to_model : Model)
    (a : addr) (own rendered : Field) (w : World) :
  AddField.preserve_default self = false ->
  get_model (render from_state) app_label (AddField.model_name self)
  = Some from_model ->
  get_model (render to_state) app_label (AddField.model_name self)
  = Some to_model ->
  allow_migrate (connection_alias schema_editor) to_model = true ->
  get_new_field to_model (AddField.name self) true = Some a ->
  heap w !! AddField.field self = Some own ->
  heap w !! a = Some rendered ->
  raises schema_editor
    {| heap := <[a := with_default rendered (default own)]> (heap w);
       calls := calls w |}
    (add_field from_model a) = true ->
  exists w1 : World,
    AddField.database_forwards self app_label schema_editor
      from_state to_state w = (Raise DatabaseError, w1)
    /\ heap w1 !! a = Some (with_default rendered (default own)).
Proof.
  intros Hpd Hfrom Hto Hallow Ha Hown Hrendered Hraises.
  unfold AddField.database_forwards. rewrite Hpd. run_M.
  rewrite Hfrom, Hto. run_M. rewrite Hallow, Ha. cbn [negb]. run_M.
  rewrite Hown, Hrendered. run_M. rewrite Hraises.
  eexists. split; [reflexivity |]. cbn [heap].
  apply list_lookup_insert_eq. by eapply lookup_lt_Some.
Qed.

Lemma AddField_database_forwards_failure_witness :
  exists w1 : World,
    AddField.database_forwards (H := direct true) pony_add "app"
      broken_editor pony_state added_pony_state added_world
    = (Raise DatabaseError, w1)
    /\ heap w1 !! 2
       = Some (with_default (IntegerField NOT_PROVIDED) (Value (VInt 5))).
Proof.
  exact (AddField_database_forwards_failure (direct true) pony_add "app"
           broken_editor pony_state added_pony_state
           {| object_name := "Pony"; meta_fields := [("id", 0)] |}
           {| object_name := "Pony";
              meta_fields := [("id", 0); ("rating", 2)] |}
           2 (IntegerField (Value (VInt 5))) (IntegerField NOT_PROVIDED)
           added_world eq_refl eq_refl eq_refl eq_refl eq_refl eq_refl
           eq_refl eq_refl).
Defined.

(** X17. When the from-state does not render the operation's model,
    every database method of every operation raises LookupError,
    whatever the router would answer, and leaves the world as it
    was. *)
Theorem database_methods_unknown_model (C : Collaborators) (op : operation)
    (app_label : string) (schema_editor : SchemaEditor)
    (from_state to_state : ProjectState) (w : World) :
  get_model (render from_state) app_label (model_name op) = None ->
  database_forwards op app_label schema_editor from_state to_state w
  = (Raise LookupError, w)
  /\ database_backwards op app_label schema_editor from_state to_state w
     = (Raise LookupError, w).
Proof.
  intros Hfrom.
  destruct op as [o | o | o | o]; cbn [model_name] in Hfrom; split;
    cbv [database_forwards database_backwards
         AddField.database_forwards AddField.database_backwards
         RemoveField.database_forwards RemoveField.database_backwards
         AlterField.database_forwards AlterField.database_backwards
         RenameField.database_forwards RenameField.database_backwards];
    run_M; by rewrite Hfrom.
Qed.

Lemma database_methods_unknown_model_witness :
  database_forwards (H := direct true) (Add pony_add) "stable" editor
    pony_state added_pony_state added_world
  = (Raise LookupError, added_world)
  /\ database_backwards (H := direct true) (Add pony_add) "stable" editor
       pony_state added_pony_state added_world
     = (Raise LookupError, added_world).
Proof.
  exact (database_methods_unknown_model (direct true) (Add pony_add)
           "stable" editor pony_state added_pony_state added_world eq_refl).
Defined.

(** X18. When the router permits the migration but neither rendered
    model knows a field of the wanted name, every database method of
    every operation raises FieldDoesNotExist without calling the schema
    editor, and leaves the world as it was. *)
Theorem database_methods_unknown_field (C : Collaborators) (op : operation)
    (app_label : string) (schema_editor : SchemaEditor)
    (from_state to_state : ProjectState) (from_model to_model : Model)
    (w : World) :
  get_model (render from_state) app_label (model_name op) = Some from_model ->
  get_model (render to_state) app_label (model_name op) = Some to_model ->
  allow_migrate (connection_alias schema_editor) from_model = true ->
  allow_migrate (connection_alias schema_editor) to_model = true ->
  (forall n : string,
      get_new_field from_model n true = None
      /\ get_new_field to_model n true = None) ->
  database_forwards op app_label schema_editor from_state to_state w
  = (Raise FieldDoesNotExist, w)
  /\ database_backwards op app_label schema_editor from_state to_state w
     = (Raise FieldDoesNotExist, w).
Proof.
  intros Hfrom Hto Haf Hat Hnone.
  destruct op as [o | o | o | o]; cbn [model_name] in Hfrom, Hto; split;
    cbv [database_forwards database_backwards
         AddField.database_forwards AddField.database_backwards
         RemoveField.database_forwards RemoveField.database_backwards
         AlterField.database_forwards AlterField.database_backwards
         RenameField.database_forwards RenameField.database_backwards];
    run_M; rewrite ?Hfrom, ?Hto; run_M; rewrite ?Haf, ?Hat;
    rewrite ?(proj1 (Hnone _)), ?(proj2 (Hnone _)); reflexivity.
Qed.

Lemma database_methods_unknown_field_witness :
  database_forwards (H := direct true) (Remove pony_remove) "app" editor
    (state_of "app" "pony" []) (state_of "app" "pony" []) added_world
  = (Raise FieldDoesNotExist, added_world)
  /\ database_backwards (H := direct true) (Remove pony_remove) "app" editor
       (state_of "app" "pony" []) (state_of "app" "pony" []) added_world
     = (Raise FieldDoesNotExist, added_world).
Proof.
  exact (database_methods_unknown_field (direct true) (Remove pony_remove)
           "app" editor (state_of "app" "pony" []) (state_of "app" "pony" [])
           {| object_name := "Pony"; meta_fields := [] |}
           {| object_name := "Pony"; meta_fields := [] |}
           added_world eq_refl eq_refl eq_refl eq_refl
           (fun n => conj eq_refl eq_refl)).
Defined.

(** ** The patch of AlterField *)

(** X19. [AlterField.database_forwards], router permitting: when the
    from-field is a relation with a target that counts as true and the
    to-field is no relation at all, reading [to_field.rel.to] raises
    AttributeError; the schema editor is not called and no field object
    is changed. *)
Theorem AlterField_database_forwards_not_a_relation (C : Collaborators)
    (self : AlterField.t) (app_label : string) (schema_editor : SchemaEditor)
    (from_state to_state : ProjectState) (from_model to_model : Model)
    (a b : addr) (fa fb : Field) (t : RelTo) (w : World) :
  get_model (render from_state) app_label (AlterField.model_name self)
  = Some from_model ->
  get_model (render to_state) app_label (AlterField.model_name self)
  = Some to_model ->
  allow_migrate (connection_alias schema_editor) to_model = true ->
  get_new_field from_model (AlterField.name self) true = Some a ->
  get_new_field to_model (AlterField.name self) true = Some b ->
  heap w !! a = Some fa ->
  heap w !! b = Some fb ->
  rel fa = Some {| to := t |} ->
  truth t = true ->
  rel fb = None ->
  AlterField.database_forwards self app_label schema_editor
    from_state to_state w = (Raise AttributeError, w).
Proof.
  intros Hfrom Hto Hallow Ha Hb Hfa Hfb Hra Ht Hrb.
  unfold AlterField.database_forwards. run_M.
  rewrite Hfrom, Hto. run_M. rewrite Hallow, Ha, Hb. run_M.
  rewrite Hfa, Hra. cbn [to]. rewrite Ht.
  destruct (is_string t); by rewrite Hfb, Hrb.
Qed.

Lemma AlterField_database_forwards_not_a_relation_witness :
  AlterField.database_forwards (H := direct true) pony_alter "app" editor
    (state_of "app" "pony" [("rider", 1)])
    (state_of "app" "pony" [("rider", 2)])
    {| heap := [AutoField; ForeignKey (Resolved Rider); CharField];
       calls := [] |}
  = (Raise AttributeError,
     {| heap := [AutoField; ForeignKey (Resolved Rider); CharField];
        calls := [] |}).
Proof.
  exact (AlterField_database_forwards_not_a_relation (direct true)
           pony_alter "app" editor
           (state_of "app" "pony" [("rider", 1)])
           (state_of "app" "pony" [("rider", 2)])
           {| object_name := "Pony"; meta_fields := [("rider", 1)] |}
           {| object_name := "Pony"; meta_fields := [("rider", 2)] |}
           1 2 (ForeignKey (Resolved Rider)) CharField (Resolved Rider)
           {| heap := [AutoField; ForeignKey (Resolved Rider); CharField];
              calls := [] |}
           eq_refl eq_refl eq_refl eq_refl eq_refl eq_refl eq_refl eq_refl
           eq_refl eq_refl).
Defined.

(** X20. [AlterField.database_forwards], router permitting, patches
    nothing and calls [alter_field] on the field objects as they are
    in three cases: the from-field is no relation (whatever the
    to-field is); the target of the from-field is the empty string; the
    targets of both fields are models. *)
Theorem AlterField_database_forwards_no_patch (C : Collaborators)
    (self : AlterField.t) (app_label : string) (schema_editor : SchemaEditor)
    (from_state to_state : ProjectState) (from_model to_model : Model)
    (a b : addr) (fa fb : Field) (w : World) :
  get_model (render from_state) app_label (AlterField.model_name self)
  = Some from_model ->
  get_model (render to_state) app_label (AlterField.model_name self)
  = Some to_model ->
  allow_migrate (connection_alias schema_editor) to_model = true ->
  get_new_field from_model (AlterField.name self) true = Some a ->
  get_new_field to_model (AlterField.name self) true = Some b ->
  heap w !! a = Some fa ->
  heap w !! b = Some fb ->
  rel fa = None
  \/ rel fa = Some {| to := Unresolved "" |}
  \/ (exists m m' : Model,
        rel fa = Some {| to := Resolved m |}
        /\ rel fb = Some {| to := Resolved m' |}) ->
  AlterField.database_forwards self app_label schema_editor
    from_state to_state w
  = invoke schema_editor (alter_field from_model a b) w.
Proof.
  intros Hfrom Hto Hallow Ha Hb Hfa Hfb Hrel.
  unfold AlterField.database_forwards. run_M.
  rewrite Hfrom, Hto. run_M. rewrite Hallow, Ha, Hb. run_M. rewrite Hfa.
  destruct Hrel as [-> | [-> | (m & m' & -> & Hrb)]]; [done | done |].
  cbn [to truth is_string]. by rewrite Hfb, Hrb.
Qed.

Lemma AlterField_database_forwards_no_patch_witness :
  AlterField.database_forwards (H := direct true) pony_alter "app" editor
    (state_of "app" "pony" [("rider", 2)])
    (state_of "app" "pony" [("rider", 0)])
    {| heap := [ForeignKey (Unresolved "Rider"); AutoField; CharField];
       calls := [] |}
  = invoke editor
      (alter_field {| object_name := "Pony";
                      meta_fields := [("rider", 2)] |} 2 0)
      {| heap := [ForeignKey (Unresolved "Rider"); AutoField; CharField];
         calls := [] |}.
Proof.
  exact (AlterField_database_forwards_no_patch (direct true)
           pony_alter "app" editor
           (state_of "app" "pony" [("rider", 2)])
           (state_of "app" "pony" [("rider", 0)])
           {| object_name := "Pony"; meta_fields := [("rider", 2)] |}
           {| object_name := "Pony"; meta_fields := [("rider", 0)] |}
           2 0 CharField (ForeignKey (Unresolved "Rider"))
           {| heap := [ForeignKey (Unresolved "Rider"); AutoField; CharField];
              calls := [] |}
           eq_refl eq_refl eq_refl eq_refl eq_refl eq_refl eq_refl
           (or_introl eq_refl)).
Defined.

(** X21. [AlterField.database_forwards], router permitting: a from-field
    whose target is a non-empty string takes over the target of the
    to-field whatever that is, a model or another string, so that
    [alter_field] is called with both field objects on the same
    target. *)
Theorem AlterField_database_forwards_string_from (C : Collaborators)
    (self : AlterField.t) (app_label : string) (schema_editor : SchemaEditor)
    (from_state to_state : ProjectState) (from_model to_model : Model)
    (a b : addr) (fa fb : Field) (s : string) (t : RelTo) (w : World) :
  get_model (render from_state) app_label (AlterField.model_name self)
  = Some from_model ->
  get_model (render to_state) app_label (AlterField.model_name self)
  = Some to_model ->
  allow_migrate (connection_alias schema_editor) to_model = true ->
  get_new_field from_model (AlterField.name self) true = Some a ->
  get_new_field to_model (AlterField.name self) true = Some b ->
  heap w !! a = Some fa ->
  heap w !! b = Some fb ->
  rel fa = Some {| to := Unresolved s |} ->
  s <> "" ->
  rel fb = Some {| to := t |} ->
  exists h : list Field,
    AlterField.database_forwards self app_label schema_editor
      from_state to_state w
    = invoke schema_editor (alter_field from_model a b)
        {| heap := h; calls := calls w |}
    /\ to <$> (h !! a ≫= rel) = Some t
    /\ to <$> (h !! b ≫= rel) = Some t.
Proof.
  intros Hfrom Hto Hallow Ha Hb Hfa Hfb Hra Hs Hrb.
  exists (<[a := with_rel_to fa t]> (heap w)).
  split; [by eapply AlterField_patches_from |].
  split; [by apply with_rel_to_target |].
  destruct (decide (a = b)) as [<- | Hab].
  - by apply with_rel_to_target.
  - rewrite list_lookup_insert_ne by done. rewrite Hfb. simpl.
    by rewrite Hrb.
Qed.

Lemma AlterField_database_forwards_string_from_witness :
  "Rider" <> ""
  /\ exists h : list Field,
       AlterField.database_forwards (H := direct true) pony_alter "app"
         editor
         (state_of "app" "pony" [("rider", 0)])
         (state_of "app" "pony" [("rider", 1)])
         {| heap := [ForeignKey (Unresolved "Rider");
                     ForeignKey (Unresolved "stable.Rider")];
            calls := [] |}
       = invoke editor
           (alter_field {| object_name := "Pony";
                           meta_fields := [("rider", 0)] |} 0 1)
           {| heap := h; calls := [] |}
       /\ to <$> (h !! 0 ≫= rel) = Some (Unresolved "stable.Rider")
       /\ to <$> (h !! 1 ≫= rel) = Some (Unresolved "stable.Rider").
Proof.
  assert (Hs : "Rider" <> "") by discriminate.
  split; [exact Hs |].
  exact (AlterField_database_forwards_string_from (direct true)
           pony_alter "app" editor
           (state_of "app" "pony" [("rider", 0)])
           (state_of "app" "pony" [("rider", 1)])
           {| object_name := "Pony"; meta_fields := [("rider", 0)] |}
           {| object_name := "Pony"; meta_fields := [("rider", 1)] |}
           0 1 (ForeignKey (Unresolved "Rider"))
           (ForeignKey (Unresolved "stable.Rider")) "Rider"
           (Unresolved "stable.Rider")
           {| heap := [ForeignKey (Unresolved "Rider");
                       ForeignKey (Unresolved "stable.Rider")];
              calls := [] |}
           eq_refl eq_refl eq_refl eq_refl eq_refl eq_refl eq_refl eq_refl
           Hs eq_refl).
Defined.

(** ** More on equality *)

Lemma AddField__eq__other (o : AddField.t) (other : operation) (w : World) :
  same_class (Add o) other = false ->
  AddField__eq__ o other w = (Ok false, w).
Proof. by destruct other. Qed.

Lemma AlterField__eq__other (o : AlterField.t) (other : operation)
    (w : World) :
  same_class (Alter o) other = false ->
  AlterField__eq__ o other w = (Ok false, w).
Proof. by destruct other. Qed.

Lemma bool_decide_sym {A : Type} `{EqDecision A} (x y : A) :
  bool_decide (x = y) = bool_decide (y = x).
Proof. apply bool_decide_ext. split; congruence. Qed.

Lemma equals_true_iff (x : bool) (w : World) :
  (Ok x, w) = (Ok true, w) <-> x = true.
Proof. split; [by intros [= ->] | by intros ->]. Qed.

Ltac open_live :=
  repeat match goal with
         | H : is_Some _ |- _ => destruct H as [? ?]
         end.

(** An identity test that cannot succeed: the two objects are of
    different classes. *)
Ltac other_object Hid :=
  unfold Operation.__eq__, ret; cbn [ident];
  rewrite bool_decide_eq_false_2;
  [ reflexivity
  | let He := fresh in
    intros He;
    first [ specialize (Hid He) | specialize (Hid (eq_sym He)) ];
    discriminate Hid ].

(** X22. On operations whose field objects are in the store, and
    where one identity means one object, equality is symmetric and
    transitive (C6 has that it is reflexive). *)
Theorem equality_is_an_equivalence (w : World) :
  (forall a b : instance,
      live w (this a) -> live w (this b) ->
      (ident a = ident b -> this a = this b) ->
      equals a b w = equals b a w)
  /\ (forall a b c : instance,
        live w (this a) -> live w (this b) -> live w (this c) ->
        (ident a = ident b -> this a = this b) ->
        equals a b w = (Ok true, w) ->
        equals b c w = (Ok true, w) ->
        equals a c w = (Ok true, w)).
Proof.
  split.
  - intros [i opa] [j opb] Ha Hb Hid. unfold equals, live in *.
    destruct opa as [o1 | o1 | o1 | o1], opb as [o2 | o2 | o2 | o2];
      cbn [this ident] in *;
      first
        [ open_live;
          erewrite (AddField__eq__eq o1 o2), (AddField__eq__eq o2 o1)
            by eassumption;
          do 3 f_equal; [f_equal |]; apply bool_decide_sym
        | open_live;
          erewrite (AlterField__eq__eq o1 o2), (AlterField__eq__eq o2 o1)
            by eassumption;
          do 3 f_equal; [f_equal |]; apply bool_decide_sym
        | unfold Operation.__eq__, ret; cbn [ident];
          by rewrite bool_decide_sym
        | rewrite ?AddField__eq__other, ?AlterField__eq__other by done;
          first [ reflexivity | other_object Hid
                | symmetry; other_object Hid ] ].
  - intros [i opa] [j opb] [k opc] Ha Hb Hc Hid. unfold equals, live in *.
    destruct opa as [o1 | o1 | o1 | o1]; cbn [this ident] in *.
    + destruct opb as [o2 | o2 | o2 | o2];
        try (rewrite AddField__eq__other by done; discriminate).
      destruct opc as [o3 | o3 | o3 | o3];
        try (intros _; rewrite AddField__eq__other by done; discriminate).
      destruct Ha as [f1 Hf1], Hb as [f2 Hf2], Hc as [f3 Hf3].
      rewrite (AddField__eq__eq o1 o2 w f1 f2 Hf1 Hf2),
        (AddField__eq__eq o2 o3 w f2 f3 Hf2 Hf3),
        (AddField__eq__eq o1 o3 w f1 f3 Hf1 Hf3).
      rewrite !equals_true_iff, !andb_true_iff, !bool_decide_eq_true.
      intros [[-> ->] ->] [[-> ->] ->]. done.
    + intros Hij. unfold Operation.__eq__, ret in Hij.
      apply equals_true_iff, bool_decide_eq_true in Hij. cbn [ident] in Hij.
      pose proof (Hid Hij) as Hsame. subst opb j.
      unfold Operation.__eq__, ret. cbn [ident].
      by rewrite !equals_true_iff, !bool_decide_eq_true.
    + destruct opb as [o2 | o2 | o2 | o2];
        try (rewrite AlterField__eq__other by done; discriminate).
      destruct opc as [o3 | o3 | o3 | o3];
        try (intros _; rewrite AlterField__eq__other by done; discriminate).
      destruct Ha as [f1 Hf1], Hb as [f2 Hf2], Hc as [f3 Hf3].
      rewrite (AlterField__eq__eq o1 o2 w f1 f2 Hf1 Hf2),
        (AlterField__eq__eq o2 o3 w f2 f3 Hf2 Hf3),
        (AlterField__eq__eq o1 o3 w f1 f3 Hf1 Hf3).
      rewrite !equals_true_iff, !andb_true_iff, !bool_decide_eq_true.
      intros [[-> ->] ->] [[-> ->] ->]. done.
    + intros Hij. unfold Operation.__eq__, ret in Hij.
      apply equals_true_iff, bool_decide_eq_true in Hij. cbn [ident] in Hij.
      pose proof (Hid Hij) as Hsame. subst opb j.
      unfold Operation.__eq__, ret. cbn [ident].
      by rewrite !equals_true_iff, !bool_decide_eq_true.
Qed.

Lemma equality_is_an_equivalence_witness :
  live rating_world (Add (add_rating "Pony" 1))
  /\ live rating_world (Add (add_rating "pony" 2))
  /\ equals {| ident := 0; this := Add (add_rating "Pony" 1) |}
            {| ident := 1; this := Add (add_rating "pony" 2) |} rating_world
     = equals {| ident := 1; this := Add (add_rating "pony" 2) |}
              {| ident := 0; this := Add (add_rating "Pony" 1) |}
              rating_world.
Proof.
  assert (H1 : live rating_world (Add (add_rating "Pony" 1)))
    by (eexists; reflexivity).
  assert (H2 : live rating_world (Add (add_rating "pony" 2)))
    by (eexists; reflexivity).
  split; [exact H1 |]. split; [exact H2 |].
  refine (proj1 (equality_is_an_equivalence rating_world)
            {| ident := 0; this := Add (add_rating "Pony" 1) |}
            {| ident := 1; this := Add (add_rating "pony" 2) |} H1 H2 _).
  intros H. discriminate H.
Defined.

(** X23. Operations that compare equal answer [references_model] and
    [references_field] alike, for every model name and field name
    asked. *)
Theorem equal_operations_reference_alike (w : World) (a b : instance)
    (m n : string) :
  (ident a = ident b -> this a = this b) ->
  equals a b w = (Ok true, w) ->
  references_model (this a) m = references_model (this b) m
  /\ references_field (this a) m n = references_field (this b) m n.
Proof.
  destruct a as [i opa], b as [j opb]. unfold equals. cbn [this ident].
  intros Hid Heq.
  destruct opa as [o1 | o1 | o1 | o1].
  - destruct opb as [o2 | o2 | o2 | o2]; try discriminate Heq.
    unfold AddField__eq__ in Heq.
    case_bool_decide as Hn; [| discriminate Heq].
    case_bool_decide as Hm; [| discriminate Heq].
    cbn [references_model references_field].
    unfold AddField.references_field, AddField.references_model.
    by rewrite Hn, Hm.
  - unfold Operation.__eq__, ret in Heq.
    apply equals_true_iff, bool_decide_eq_true in Heq. cbn [ident] in Heq.
    by rewrite <- (Hid Heq).
  - destruct opb as [o2 | o2 | o2 | o2]; try discriminate Heq.
    unfold AlterField__eq__ in Heq.
    case_bool_decide as Hn; [| discriminate Heq].
    case_bool_decide as Hm; [| discriminate Heq].
    cbn [references_model references_field].
    unfold AlterField.references_field, AlterField.references_model.
    by rewrite Hn, Hm.
  - unfold Operation.__eq__, ret in Heq.
    apply equals_true_iff, bool_decide_eq_true in Heq. cbn [ident] in Heq.
    by rewrite <- (Hid Heq).
Qed.

Lemma equal_operations_reference_alike_witness :
  equals {| ident := 0; this := Add (add_rating "Pony" 1) |}
         {| ident := 1; this := Add (add_rating "pony" 2) |} rating_world
  = (Ok true, rating_world)
  /\ references_model (Add (add_rating "Pony" 1)) "PONY"
     = references_model (Add (add_rating "pony" 2)) "PONY"
  /\ references_field (Add (add_rating "Pony" 1)) "PONY" "Rating"
     = references_field (Add (add_rating "pony" 2)) "PONY" "Rating".
Proof.
  assert (H1 : equals {| ident := 0; this := Add (add_rating "Pony" 1) |}
                      {| ident := 1; this := Add (add_rating "pony" 2) |}
                      rating_world = (Ok true, rating_world))
    by reflexivity.
  split; [exact H1 |].
  refine (equal_operations_reference_alike rating_world
            {| ident := 0; this := Add (add_rating "Pony" 1) |}
            {| ident := 1; this := Add (add_rating "pony" 2) |}
            "PONY" "Rating" _ H1).
  intros H. discriminate H.
Defined.

(** X24. [preserve_default] plays no part in the equality of AddField:
    two AddField operations that differ in nothing else are equal. *)
Theorem AddField_equality_ignores_preserve_default (w : World) (i j : nat)
    (mn n : string) (f : addr) (pd1 pd2 : bool) :
  is_Some (heap w !! f) ->
  equals
    {| ident := i;
       this := Add {| AddField.model_name := mn; AddField.name := n;
                      AddField.field := f;
                      AddField.preserve_default := pd1 |} |}
    {| ident := j;
       this := Add {| AddField.model_name := mn; AddField.name := n;
                      AddField.field := f;
                      AddField.preserve_default := pd2 |} |} w
  = (Ok true, w).
Proof.
  intros [g Hg]. unfold equals. cbn [this].
  erewrite AddField__eq__eq by exact Hg.
  cbn [AddField.name AddField.model_name].
  by rewrite !bool_decide_eq_true_2.
Qed.

Lemma AddField_equality_ignores_preserve_default_witness :
  is_Some (heap pony_world !! 1)
  /\ equals
       {| ident := 0;
          this := Add {| AddField.model_name := "Pony";
                         AddField.name := "rating"; AddField.field := 1;
                         AddField.preserve_default := true |} |}
       {| ident := 1;
          this := Add {| AddField.model_name := "Pony";
                         AddField.name := "rating"; AddField.field := 1;
                         AddField.preserve_default := false |} |}
       pony_world
     = (Ok true, pony_world).
Proof.
  assert (H1 : is_Some (heap pony_world !! 1)) by (eexists; reflexivity).
  split; [exact H1 |].
  exact (AddField_equality_ignores_preserve_default pony_world 0 1
           "Pony" "rating" 1 true false H1).
Defined.

(** ** References *)

Lemma lower_ascii_idemp (c : ascii) : lower_ascii (lower_ascii c) = lower_ascii c.
Proof. by destruct c as [[] [] [] [] [] [] [] []]. Qed.

Lemma lower_idemp (s : string) : lower (lower s) = lower s.
Proof.
  induction s as [| c s IH]; [done |].
  simpl. by rewrite lower_ascii_idemp, IH.
Qed.

(** X25. [references_model] and [references_field] of every operation
    ignore the case of the names they are asked about; an operation
    references its own model; and an operation references a field only
    of a model it references. *)
Theorem references_ignore_case (op : operation) (m n : string) :
  references_model op (lower m) = references_model op m
  /\ references_field op (lower m) (lower n) = references_field op m n
  /\ references_model op (model_name op) = true
  /\ (references_field op m n = true -> references_model op m = true).
Proof.
  destruct op as [o | o | o | o];
    cbn [references_model references_field model_name];
    unfold AddField.references_field, AddField.references_model,
      RemoveField.references_field, RemoveField.references_model,
      AlterField.references_field, AlterField.references_model,
      RenameField.references_field, RenameField.references_model;
    rewrite !lower_idemp; (split; [done |]); (split; [done |]);
    (split; [by rewrite bool_decide_eq_true_2 |]);
    intros H; by apply andb_prop in H as [H _].
Qed.

Lemma references_ignore_case_witness :
  references_field (Rename {| RenameField.model_name := "Pony";
                              RenameField.old_name := "Name";
                              RenameField.new_name := "nick" |})
    "PONY" "NICK" = true
  /\ references_model (Rename {| RenameField.model_name := "Pony";
                                 RenameField.old_name := "Name";
                                 RenameField.new_name := "nick" |})
       "PONY" = true.
Proof.
  assert (H : references_field
                (Rename {| RenameField.model_name := "Pony";
                           RenameField.old_name := "Name";
                           RenameField.new_name := "nick" |})
                "PONY" "NICK" = true) by reflexivity.
  split; [exact H |].
  exact (proj2 (proj2 (proj2 (references_ignore_case _ "PONY" "NICK"))) H).
Defined.

(** X26. [state_forwards] changes only a model that the operation
    references: if a model of the state is not what it was after
    [state_forwards], it is in the application the call named and
    [references_model] holds of its name. *)
Theorem state_forwards_changes_referenced_model (op : operation)
    (app_label : string) (state st1 : ProjectState) (w w1 : World)
    (a m : string) :
  state_forwards op app_label state w = (Ok st1, w1) ->
  models st1 !! (a, m) <> models state !! (a, m) ->
  a = app_label /\ references_model op m = true.
Proof.
  intros Hrun Hdiff.
  destruct (decide ((a, m) = target op app_label)) as [He | Hne].
  - unfold target in He. injection He as -> ->. split; [done |].
    destruct op as [o | o | o | o];
      cbn [references_model model_name];
      unfold AddField.references_model, RemoveField.references_model,
        AlterField.references_model, RenameField.references_model;
      apply bool_decide_eq_true_2, lower_idemp.
  - destruct Hdiff. by eapply state_forwards_other_keys.
Qed.

Lemma state_forwards_changes_referenced_model_witness :
  state_forwards (Add pony_add) "app" pony_state pony_world
  = (Ok added_pony_state, added_world)
  /\ models added_pony_state !! ("app", "pony")
     <> models pony_state !! ("app", "pony")
  /\ "app" = "app"
  /\ references_model (Add pony_add) "pony" = true.
Proof.
  assert (H1 : state_forwards (Add pony_add) "app" pony_state pony_world
               = (Ok added_pony_state, added_world)) by reflexivity.
  assert (H2 : models added_pony_state !! ("app", "pony")
               <> models pony_state !! ("app", "pony")).
  { intros H. vm_compute in H. discriminate H. }
  split; [exact H1 |]. split; [exact H2 |].
  exact (state_forwards_changes_referenced_model (Add pony_add) "app"
           pony_state added_pony_state pony_world added_world "app" "pony"
           H1 H2).
Defined.

(** X27. A rename references its field under the old name and under
    the new name, and a rename and its reverse reference the same
    models and fields. *)
Theorem RenameField_references_both_names (self : RenameField.t)
    (m n : string) :
  RenameField.references_field self (RenameField.model_name self)
    (RenameField.old_name self) = true
  /\ RenameField.references_field self (RenameField.model_name self)
       (RenameField.new_name self) = true
  /\ RenameField.references_model (reversed self) m
     = RenameField.references_model self m
  /\ RenameField.references_field (reversed self) m n
     = RenameField.references_field self m n.
Proof.
  unfold RenameField.references_field, RenameField.references_model, reversed.
  cbn [RenameField.model_name RenameField.old_name RenameField.new_name].
  split; [| split; [| split]].
  - rewrite (bool_decide_eq_true_2
               (lower (RenameField.model_name self)
                = lower (RenameField.model_name self))) by done.
    by rewrite (bool_decide_eq_true_2
                  (lower (RenameField.old_name self)
                   = lower (RenameField.old_name self))) by done.
  - rewrite (bool_decide_eq_true_2
               (lower (RenameField.model_name self)
                = lower (RenameField.model_name self))) by done.
    rewrite (bool_decide_eq_true_2
               (lower (RenameField.new_name self)
                = lower (RenameField.new_name self))) by done.
    by rewrite orb_true_r.
  - done.
  - by rewrite orb_comm.
Qed.

(** ** Descriptions *)

(** X28. [describe] tells the class: operations of two different
    classes never have the same description, whatever their names. *)
Theorem describe_tells_class (a b : operation) :
  describe a = describe b -> same_class a b = true.
Proof.
  destruct a as [o1 | o1 | o1 | o1], b as [o2 | o2 | o2 | o2];
    cbn [describe same_class]; try done;
    unfold AddField.describe, RemoveField.describe, AlterField.describe,
      RenameField.describe;
    cbn [String.append]; intros H; discriminate H.
Qed.

Lemma describe_tells_class_witness :
  describe (Add pony_add) = "Add field rating to Pony"
  /\ same_class (Add pony_add) (Add (add_rating "Pony" 1)) = true.
Proof.
  split; [reflexivity |].
  exact (describe_tells_class (Add pony_add) (Add (add_rating "Pony" 1))
           eq_refl).
Defined.

(** ** The state pass and the store *)

(** X29. [state_forwards] of any operation, whether it returns or
    raises, calls no schema editor and writes to no field object that
    exists: every object of the store is afterwards what it was. All
    it may do to the store is add the clone of AddField. *)
Theorem state_forwards_keeps_objects (op : operation) (app_label : string)
    (state : ProjectState) (w : World) :
  calls (snd (state_forwards op app_label state w)) = calls w
  /\ (forall (x : addr) (f : Field),
        heap w !! x = Some f ->
        heap (snd (state_forwards op app_label state w)) !! x = Some f)
  /\ (is_add op = false ->
      heap (snd (state_forwards op app_label state w)) = heap w).
Proof.
  destruct op as [o | o | o | o]; cbn [state_forwards is_add].
  - unfold AddField.state_forwards.
    destruct (AddField.preserve_default o); cbn [negb]; run_M.
    + by destruct (models state !! _).
    + destruct (heap w !! AddField.field o) as [f0 |] eqn:Hf0; run_M.
      * rewrite lookup_app_r by done. rewrite Nat.sub_diag. cbn.
        rewrite insert_app_r_alt by done. rewrite Nat.sub_diag. cbn.
        destruct (models state !! _); cbn; (split; [done |]);
          (split; [| done]); intros x f Hx; rewrite lookup_app_l;
          done || by eapply lookup_lt_Some.
      * done.
  - unfold RemoveField.state_forwards. run_M.
    by destruct (models state !! _).
  - unfold AlterField.state_forwards. run_M.
    by destruct (models state !! _).
  - unfold RenameField.state_forwards. run_M.
    by destruct (models state !! _).
Qed.

Lemma state_forwards_keeps_objects_witness :
  heap pony_world !! 1 = Some (IntegerField (Value (VInt 5)))
  /\ heap (snd (state_forwards (Add pony_add) "app" pony_state pony_world))
       !! 1 = Some (IntegerField (Value (VInt 5))).
Proof.
  assert (H : heap pony_world !! 1 = Some (IntegerField (Value (VInt 5))))
    by reflexivity.
  split; [exact H |].
  exact (proj1 (proj2 (state_forwards_keeps_objects (Add pony_add) "app"
                         pony_state pony_world)) 1 _ H).
Defined.
